(** * hydra/_internal/utils.py: the instantiation helpers

    A shallow embedding of [_locate], [_is_target], [_is_recursive],
    [_get_target_type], [_pop_convert_mode] and [_get_kwargs], and the
    properties of the recursive instantiation engine proved on it.

    Conventions of the embedding.
    - A Python object other than a config container or a primitive is a
      [pyobj]: the embedding keeps what the code asks of it
      ([isinstance(o, type)], [callable(o)], its truth value).
    - The interpreter state read and changed by [import_module] is an
      abstract [world]; [import_module] and [getattr] are parameters.
    - An exception is a value of [exn]; a call returns an [outcome].
    - A Python object mutated in place (the config node and the keyword
      dictionary) is threaded through: a function returns the object as
      it is after the call, next to its result. *)

From Stdlib Require Import String Ascii List Bool Arith Lia.
Import ListNotations.
Open Scope string_scope.

Set Implicit Arguments.
Set Warnings "-register-all".

(** ** Python objects, exceptions, outcomes *)

Record pyobj : Type := mk_pyobj {
  obj_name : string;       (* identity of the object *)
  obj_is_type : bool;      (* isinstance(o, type) *)
  obj_callable : bool;     (* callable(o) *)
  obj_truthy : bool        (* bool(o) *)
}.

Inductive exn : Type :=
| ImportError_EmptyPath                                   (* ImportError("Empty path") *)
| ImportError_Loading (path : string)                     (* "Error loading module '{path}'" *)
| ImportError_Encountered (cause : string) (path : string) (* "Encountered error: `{e}` when loading module '{path}'" *)
| ValueError_InvalidType (path : string)                  (* "Invalid type (...) found for {path}" *)
| ValueError_RecursiveFlag                                (* "_recursive_ flag must be a bool, got ..." *)
| Inst_NoTarget                                           (* InstantiationException("Unable to determine target") *)
| Inst_UnsupportedTarget                                  (* "Unsupported target type : ..." *)
| Inst_ConvertValue (convert : string)                    (* "Unsupported _convert_ value: {convert}" *)
| Inst_ConvertType                                        (* "_convert_ must be a string or ConvertMode enum ..." *)
| AttributeError (attr : string)                          (* raised by getattr *)
| UnboundLocalError (var : string)                        (* a local read before assignment *)
| AssertionError                                          (* a failed assert *)
| Collaborator (msg : string).                            (* raised inside hydra.utils.instantiate *)

Inductive exn_class : Type :=
| CImportError | CValueError | CInstantiationException
| CAttributeError | CUnboundLocalError | COther.

Definition class_of (e : exn) : exn_class :=
  match e with
  | ImportError_EmptyPath | ImportError_Loading _ | ImportError_Encountered _ _ => CImportError
  | ValueError_InvalidType _ | ValueError_RecursiveFlag => CValueError
  | Inst_NoTarget | Inst_UnsupportedTarget | Inst_ConvertValue _ | Inst_ConvertType =>
      CInstantiationException
  | AttributeError _ => CAttributeError
  | UnboundLocalError _ => CUnboundLocalError
  | AssertionError => COther
  | Collaborator _ => COther
  end.

Inductive outcome (A : Type) : Type :=
| Return (a : A)
| Raise (e : exn).
Arguments Return {A} a.
Arguments Raise {A} e.

(** The spec's "resolution error": the path "cannot be imported/resolved,
    or resolves to a non-type, non-callable object". In the code these
    are the [ImportError]s of [_locate] and its final [ValueError]. *)
Definition is_resolution_error (e : exn) : bool :=
  match e with
  | ImportError_EmptyPath | ImportError_Loading _ | ImportError_Encountered _ _
  | ValueError_InvalidType _ => true
  | _ => false
  end.

(** ** Strings: [str.split] and [str.join] *)

(** [s.split(sep)] for a one-character separator. *)
Fixpoint split_on (sep : ascii) (s : string) : list string :=
  match s with
  | EmptyString => [EmptyString]
  | String c rest =>
      if Ascii.eqb c sep then EmptyString :: split_on sep rest
      else match split_on sep rest with
           | [] => [String c EmptyString]
           | h :: t => String c h :: t
           end
  end.

Definition dot : ascii := "."%char.

(** [sep.join(parts)] *)
Definition join (sep : string) (parts : list string) : string :=
  String.concat sep parts.

Definition nonempty (s : string) : bool := negb (s =? "").

(** ** The symbol resolver [_locate] *)

Section Locate.

Variable world : Type.
(** [import_module(name)] in a world: the world afterwards, and the
    module or (left) the text of the exception it raised. *)
Variable import_module : world -> string -> world * (string + pyobj).
(** [getattr(o, name)]; [None] when the attribute is missing, which is
    also what [hasattr] tests. *)
Variable getattr : world -> pyobj -> string -> option pyobj.
(** The module [builtins]. *)
Variable builtins : pyobj.

(** The world together with the log of the names handed to
    [import_module], oldest first. *)
Record istate : Type := mk_istate {
  st_world : world;
  st_imports : list string
}.

Definition do_import (st : istate) (name : string) : istate * (string + pyobj) :=
  let (w', r) := import_module (st_world st) name in
  (mk_istate w' (st_imports st ++ [name]), r).

Definition hasattr (st : istate) (o : pyobj) (name : string) : bool :=
  match getattr (st_world st) o name with Some _ => true | None => false end.

(** The locals of [_locate] that the first loop assigns. *)
Record locals : Type := mk_locals {
  v_n : option nat;
  v_mod : option string;
  v_module : option pyobj
}.

Definition truthy (m : option pyobj) : bool :=
  match m with Some o => obj_truthy o | None => false end.

(** [for n in reversed(range(len(parts))): ...], over the remaining
    values [ns] of [n]. *)
Fixpoint search_loop (path : string) (parts : list string) (ns : list nat)
    (st : istate) (vars : locals) : istate * outcome locals :=
  match ns with
  | [] => (st, Return vars)
  | n :: ns' =>
      let mod_ := join "." (firstn n parts) in
      let (st', r) := do_import st mod_ in
      match r with
      | inl _ =>
          if Nat.eqb n 0 then (st', Raise (ImportError_Loading path))
          else search_loop path parts ns' st'
                 (mk_locals (Some n) (Some mod_) (v_module vars))
      | inr m =>
          let vars' := mk_locals (Some n) (Some mod_) (Some m) in
          if truthy (Some m) then (st', Return vars')
          else search_loop path parts ns' st' vars'
      end
  end.

(** [for part in parts[n:]: ...], over the remaining parts [ps]. *)
Fixpoint attr_loop (path : string) (ps : list string)
    (st : istate) (mod_ : string) (obj : pyobj) : istate * outcome pyobj :=
  match ps with
  | [] => (st, Return obj)
  | part :: ps' =>
      let mod' := mod_ ++ "." ++ part in
      if hasattr st obj part then
        match getattr (st_world st) obj part with
        | Some o => attr_loop path ps' st mod' o
        | None => (st, Raise (AttributeError part))
        end
      else
        let (st', r) := do_import st mod' in
        match r with
        | inl e => (st', Raise (ImportError_Encountered e path))
        | inr _ =>
            match getattr (st_world st') obj part with
            | Some o => attr_loop path ps' st' mod' o
            | None => (st', Raise (AttributeError part))
            end
        end
  end.

Definition _locate (st : istate) (path : string) : istate * outcome pyobj :=
  if path =? "" then (st, Raise ImportError_EmptyPath)
  else
    let parts := filter nonempty (split_on dot path) in
    let (st1, r) :=
      search_loop path parts (rev (seq 0 (length parts))) st
        (mk_locals None None None) in
    match r with
    | Raise e => (st1, Raise e)
    | Return vars =>
        let obj := if truthy (v_module vars)
                   then match v_module vars with Some m => m | None => builtins end
                   else builtins in
        match v_n vars, v_mod vars with
        | None, _ => (st1, Raise (UnboundLocalError "n"))
        | Some _, None => (st1, Raise (UnboundLocalError "mod"))
        | Some n, Some mod_ =>
            let (st2, r2) := attr_loop path (skipn n parts) st1 mod_ obj in
            match r2 with
            | Raise e => (st2, Raise e)
            | Return o =>
                if obj_is_type o then (st2, Return o)
                else if obj_callable o then (st2, Return o)
                else (st2, Raise (ValueError_InvalidType path))
            end
        end
    end.

End Locate.

(** ** Config nodes *)

(** [hydra.utils.ConvertMode] *)
Inductive ConvertMode : Type := NONE | PARTIAL | ALL.

(** [_metadata.object_type] of a DictConfig: the class the mapping
    stands for, when it has one. *)
Definition object_type : Type := option string.

(** A config value: a primitive, an enumeration value, any other Python
    object (a type, a function, an object built by a constructor), a
    mapping with its object-type tag, or a sequence. A mapping is the
    list of its items in key order. Null is [NNone], also for a
    container node whose content is None. Interpolations, missing
    values and the readonly and struct flags are outside the model. *)
Inductive node : Type :=
| NNone
| NBool (b : bool)
| NInt (i : nat)
| NStr (s : string)
| NEnum (m : ConvertMode)
| NObj (o : pyobj)
| NDict (tag : object_type) (items : list (string * node))
| NList (elems : list node).

Definition dict : Type := list (string * node).

(** [d[k]] when [k in d] *)
Fixpoint lookup (k : string) (d : dict) : option node :=
  match d with
  | [] => None
  | (k', v) :: d' => if k' =? k then Some v else lookup k d'
  end.

(** [k in d] *)
Definition contains (k : string) (d : dict) : bool :=
  match lookup k d with Some _ => true | None => false end.

(** [d] after [d.pop(k)] *)
Fixpoint remove (k : string) (d : dict) : dict :=
  match d with
  | [] => []
  | (k', v) :: d' => if k' =? k then remove k d' else (k', v) :: remove k d'
  end.

Definition keys (d : dict) : list string := map fst d.

Definition is_none (v : node) : bool :=
  match v with NNone => true | _ => false end.
Definition is_dict (v : node) : bool :=
  match v with NDict _ _ => true | _ => false end.
Definition is_list (v : node) : bool :=
  match v with NList _ => true | _ => false end.
Definition is_config (v : node) : bool := is_dict v || is_list v.

Definition _is_target (x : node) : bool :=
  match x with
  | NDict _ items => contains "_target_" items
  | _ => false
  end.

(** ** Policy extraction *)

Section RecursionPolicy.

(** [omegaconf._utils.type_str], a library function outside this
    repository: the message of the error is built with it, on the value
    of the flag, and the call may raise. *)
Variable type_str : node -> outcome string.

(** The inner [_is_rec(d)]: the dictionary after the call and the
    outcome. The key is popped before its type is checked; the
    ValueError is raised once its message is built. *)
Definition _is_rec (d : dict) : dict * outcome (option bool) :=
  match lookup "_recursive_" d with
  | Some rec =>
      let d' := remove "_recursive_" d in
      match rec with
      | NBool b => (d', Return (Some b))
      | _ =>
          match type_str rec with
          | Return _ => (d', Raise ValueError_RecursiveFlag)
          | Raise e => (d', Raise e)
          end
      end
  | None => (d, Return None)
  end.

(** [_is_recursive(config, kwargs)]: both dictionaries after the call
    and the outcome. [kwargs] is read first; when that raises, [config]
    has not been touched. *)
Definition _is_recursive (config kwargs : dict) : dict * dict * outcome bool :=
  let (kwargs', r1) := _is_rec kwargs in
  match r1 with
  | Raise e => (config, kwargs', Raise e)
  | Return kwrec =>
      let (config', r2) := _is_rec config in
      match r2 with
      | Raise e => (config', kwargs', Raise e)
      | Return configrec =>
          match kwrec, configrec with
          | Some b, _ => (config', kwargs', Return b)
          | None, Some b => (config', kwargs', Return b)
          | None, None => (config', kwargs', Return true)
          end
      end
  end.

End RecursionPolicy.

Definition _pop_convert_mode (d : dict) : dict * outcome ConvertMode :=
  match lookup "_convert_" d with
  | Some convert =>
      let d' := remove "_convert_" d in
      match convert with
      | NNone => (d', Return NONE)
      | NStr s =>
          if s =? "none" then (d', Return NONE)
          else if s =? "partial" then (d', Return PARTIAL)
          else if s =? "all" then (d', Return ALL)
          else (d', Raise (Inst_ConvertValue s))
      | NEnum m => (d', Return m)
      | _ => (d', Raise Inst_ConvertType)
      end
  | None => (d, Return NONE)
  end.

(** ** Target extraction *)

Section Target.

Variable world : Type.
Variable import_module : world -> string -> world * (string + pyobj).
Variable getattr : world -> pyobj -> string -> option pyobj.
Variable builtins : pyobj.

(** What [_get_target_type] leaves behind: both dictionaries and the
    interpreter state after the call. *)
Record target_frame : Type := mk_target_frame {
  tf_config : dict;
  tf_kwargs : dict;
  tf_state : istate world
}.

(** [d.pop("_target_")] guarded by ["_target_" in d]; a key bound to
    None leaves the local at None. *)
Definition pop_target (d : dict) : dict * option node :=
  match lookup "_target_" d with
  | Some NNone => (remove "_target_" d, None)
  | Some t => (remove "_target_" d, Some t)
  | None => (d, None)
  end.

Definition _get_target_type (config kwargs : dict) (st : istate world)
    : target_frame * outcome pyobj :=
  let (kwargs', kwargs_target) := pop_target kwargs in
  let (config', config_target) := pop_target config in
  let target :=
    match kwargs_target with
    | Some t => Some t
    | None => config_target
    end in
  match target with
  | None => (mk_target_frame config' kwargs' st, Raise Inst_NoTarget)
  | Some (NStr path) =>
      let (st', r) := _locate import_module getattr builtins st path in
      (mk_target_frame config' kwargs' st', r)
  | Some (NObj o) =>
      if obj_is_type o then (mk_target_frame config' kwargs' st, Return o)
      else if obj_callable o then (mk_target_frame config' kwargs' st, Return o)
      else (mk_target_frame config' kwargs' st, Raise Inst_UnsupportedTarget)
  | Some _ => (mk_target_frame config' kwargs' st, Raise Inst_UnsupportedTarget)
  end.

End Target.

(** ** The instantiation engine [_get_kwargs] *)

(** A computation that may raise, or exhaust the recursion budget
    ([None]). *)
Definition M (A : Type) : Type := option (outcome A).

Definition ret {A : Type} (a : A) : M A := Some (Return a).
Definition throw {A : Type} (e : exn) : M A := Some (Raise e).
Definition bind {A B : Type} (m : M A) (k : A -> M B) : M B :=
  match m with
  | None => None
  | Some (Raise e) => Some (Raise e)
  | Some (Return a) => k a
  end.

Notation "x <- m ;; k" := (bind m (fun x => k))
  (at level 61, m at next level, right associativity).

(** A [for] loop whose body may change the element it visits in place
    and yields one value for it: the elements after the loop and the
    values, both in visiting order. The first exception ends the loop. *)
Fixpoint for_each {A B : Type} (body : A -> M (A * B)) (xs : list A)
    : M (list A * list B) :=
  match xs with
  | [] => ret ([], [])
  | x :: xs' =>
      xr <- body x ;;
      rest <- for_each body xs' ;;
      ret (fst xr :: fst rest, snd xr :: snd rest)
  end.

Definition get_object_type (v : node) : object_type :=
  match v with NDict tag _ => tag | _ => None end.

(** [v._metadata.object_type = tag] on a mapping; the metadata of a
    sequence is not part of the model. *)
Definition set_object_type (tag : object_type) (v : node) : node :=
  match v with NDict _ items => NDict tag items | _ => v end.

(** Modelled from the spec: OmegaConf's [merge_with] is a library
    function outside this repository. "Overlay values override node
    values for identical keys, and all other node keys are preserved
    unchanged, with deterministic key order (node order, then any
    overlay-only keys appended)." *)
Definition merge_with_spec (config overrides : dict) : dict :=
  List.app
    (map (fun kv => match lookup (fst kv) overrides with
                    | Some v => (fst kv, v)
                    | None => kv
                    end) config)
    (filter (fun kv => negb (contains (fst kv) config)) overrides).

Section Engine.

(** [omegaconf._utils.type_str], for [_is_recursive]. *)
Variable type_str : node -> outcome string.
(** [hydra.utils.instantiate(v)] with no overlay: the downstream
    object-construction collaborator. It works on a copy of [v]. *)
Variable instantiate : node -> outcome node.
(** [config.merge_with(overrides)] on the items of [config]. *)
Variable merge_with : dict -> dict -> dict.
(** The object-type tag of a DictConfig just made by
    [OmegaConf.create]. *)
Variable fresh_object_type : object_type.

Definition call_instantiate (v : node) : M (node * node) :=
  match instantiate v with
  | Return o => ret (v, o)
  | Raise e => throw e
  end.

(** The body of the loop over the items of a nested mapping [v]
    (lines 680-686); [self] is [_get_kwargs(value, root=False)]. *)
Definition inner_dict_item (self : node -> M (node * node))
    (kv : string * node) : M ((string * node) * (string * node)) :=
  let (key, value) := kv in
  if _is_target value then
    vr <- call_instantiate value ;; ret ((key, fst vr), (key, snd vr))
  else if is_config value then
    vr <- self value ;; ret ((key, fst vr), (key, snd vr))
  else ret ((key, value), (key, value)).

(** The body of the loop over the elements of a nested sequence [v]
    (lines 691-698). *)
Definition inner_list_elem (self : node -> M (node * node))
    (x : node) : M (node * node) :=
  if _is_target x then call_instantiate x
  else if is_config x then
    xr <- self x ;;
    ret (fst xr, set_object_type (get_object_type x) (snd xr))
  else ret (x, x).

(** The body of the loop over the items of [config] when [recursive]
    holds (lines 673-701). *)
Definition field_item (self : node -> M (node * node))
    (kv : string * node) : M ((string * node) * (string * node)) :=
  let (k, v) := kv in
  if is_none v then ret ((k, v), (k, v))
  else if _is_target v then
    vr <- call_instantiate v ;; ret ((k, fst vr), (k, snd vr))
  else
    match v with
    | NDict tag items =>
        r <- for_each (inner_dict_item self) items ;;
        ret ((k, NDict tag (fst r)), (k, NDict tag (snd r)))
    | NList elems =>
        r <- for_each (inner_list_elem self) elems ;;
        ret ((k, NList (fst r)), (k, NList (snd r)))
    | _ => ret ((k, v), (k, v))
    end.

(** [_get_kwargs(config, root, **kwargs)]: the node [config] as the
    call leaves it, and the returned value. [fuel] bounds the depth of
    the recursion. *)
Fixpoint _get_kwargs (fuel : nat) (config : node) (root : bool) (kwargs : dict)
    : M (node * node) :=
  match fuel with
  | 0 => None
  | S fuel' =>
      let self := fun x => _get_kwargs fuel' x false [] in
      match config with
      | NList elems =>
          r <- for_each (fun x => if is_config x then self x else ret (x, x)) elems ;;
          ret (NList (fst r), NList (snd r))
      | NDict tag items =>
          match _is_recursive type_str items kwargs with
          | (_, _, Raise e) => throw e
          | (items1, kwargs1, Return recursive) =>
              let items2 := merge_with items1 kwargs1 in
              r <- (if recursive then for_each (field_item self) items2
                    else for_each (fun kv => ret (kv, kv)) items2) ;;
              ret (NDict tag (fst r),
                   NDict (if root then fresh_object_type else tag) (snd r))
          end
      | _ => throw AssertionError
      end
  end.

End Engine.

(** ** The resolver in the words of its description *)

Definition has_dot (s : string) : bool :=
  existsb (Ascii.eqb dot) (list_ascii_of_string s).

(** The segments of a path: [[part for part in path.split(".") if part]]. *)
Definition segments (path : string) : list string :=
  filter nonempty (split_on dot path).

Section LocateSpec.

Variable world : Type.
Variable import_module : world -> string -> world * (string + pyobj).
Variable getattr : world -> pyobj -> string -> option pyobj.

(** The prefixes offered to the importer, each with its number of
    segments: from all segments but the last down to none. *)
Definition candidate_prefixes (parts : list string) : list (nat * string) :=
  map (fun n => (n, join "." (firstn n parts))) (rev (seq 0 (length parts))).

(** The first candidate that imports as a module counts; the others
    before it were tried and given up. *)
Fixpoint first_importable (cands : list (nat * string)) (st : istate world)
    : istate world * option (nat * pyobj) :=
  match cands with
  | [] => (st, None)
  | (n, name) :: rest =>
      match do_import import_module st name with
      | (st', inr m) =>
          if obj_truthy m then (st', Some (n, m)) else first_importable rest st'
      | (st', inl _) => first_importable rest st'
      end
  end.

(** Segment number [j] and the ones after it, as attributes of [obj]
    in turn; a missing attribute gets one import of the dotted path up
    to and including that segment. *)
Fixpoint resolve_attributes (path : string) (parts : list string)
    (count j : nat) (st : istate world) (obj : pyobj)
    : istate world * outcome pyobj :=
  match count with
  | 0 => (st, Return obj)
  | S count' =>
      let part := nth j parts "" in
      match getattr (st_world st) obj part with
      | Some o => resolve_attributes path parts count' (S j) st o
      | None =>
          match do_import import_module st (join "." (firstn (S j) parts)) with
          | (st', inl e) => (st', Raise (ImportError_Encountered e path))
          | (st', inr _) =>
              match getattr (st_world st') obj part with
              | Some o => resolve_attributes path parts count' (S j) st' o
              | None => (st', Raise (AttributeError part))
              end
          end
      end
  end.

Definition locate_spec (st : istate world) (path : string)
    : istate world * outcome pyobj :=
  let parts := segments path in
  match first_importable (candidate_prefixes parts) st with
  | (st1, None) => (st1, Raise (ImportError_Loading path))
  | (st1, Some (n, base)) =>
      match resolve_attributes path parts (length parts - n) n st1 base with
      | (st2, Raise e) => (st2, Raise e)
      | (st2, Return o) =>
          if obj_is_type o || obj_callable o then (st2, Return o)
          else (st2, Raise (ValueError_InvalidType path))
      end
  end.

(** Python's importer refuses the empty module name. *)
Definition empty_name_fails : Prop :=
  forall w, exists w' e, import_module w "" = (w', inl e).

(** The search as the description first has it: the longest prefix is
    the whole path. *)
Definition candidate_prefixes_all (parts : list string) : list (nat * string) :=
  map (fun n => (n, join "." (firstn n parts))) (rev (seq 0 (S (length parts)))).

End LocateSpec.

(** ** A small interpreter to run the definitions on

    One package [pkg] with a class [Foo], a function [helper], a
    constant [VERSION], and a submodule [pkg.sub] with a class [Bar];
    the submodule is an attribute of the package once it is imported.
    The world is the list of imported module names. *)

Definition toy_module (name : string) : pyobj := mk_pyobj name false false true.
Definition toy_Foo : pyobj := mk_pyobj "pkg.Foo" true true true.
Definition toy_Bar : pyobj := mk_pyobj "pkg.sub.Bar" true true true.
Definition toy_helper : pyobj := mk_pyobj "pkg.helper" false true true.
Definition toy_VERSION : pyobj := mk_pyobj "pkg.VERSION" false false true.
Definition toy_len : pyobj := mk_pyobj "builtins.len" false true true.
Definition toy_builtins : pyobj := toy_module "builtins".

Definition toy_import (w : list string) (name : string)
    : list string * (string + pyobj) :=
  if (name =? "pkg") || (name =? "pkg.sub") || (name =? "builtins")
  then (name :: w, inr (toy_module name))
  else if name =? "" then (w, inl "Empty module name")
  else (w, inl "No module named it").

Definition toy_getattr (w : list string) (o : pyobj) (name : string) : option pyobj :=
  if obj_name o =? "pkg" then
    if name =? "Foo" then Some toy_Foo
    else if name =? "helper" then Some toy_helper
    else if name =? "VERSION" then Some toy_VERSION
    else if name =? "sub" then
      if existsb (String.eqb "pkg.sub") w then Some (toy_module "pkg.sub") else None
    else None
  else if obj_name o =? "pkg.sub" then
    if name =? "Bar" then Some toy_Bar else None
  else if obj_name o =? "builtins" then
    if name =? "len" then Some toy_len else None
  else None.

Definition toy_start : istate (list string) := mk_istate [] [].

Definition toy_locate := _locate toy_import toy_getattr toy_builtins.

(** The collaborator of the small interpreter: it builds an object named
    after the target string of the node, and raises without one. *)
Definition toy_instantiate (v : node) : outcome node :=
  match v with
  | NDict _ items =>
      match lookup "_target_" items with
      | Some (NStr t) => Return (NObj (mk_pyobj ("instance of " ++ t) false false true))
      | _ => Raise (Collaborator "no target")
      end
  | _ => Raise (Collaborator "not a mapping")
  end.

(** [type_str] on a value as OmegaConf has it: the name for None, a
    missing attribute for a value that is no type. *)
Definition toy_type_str (v : node) : outcome string :=
  match v with
  | NNone => Return "NoneType"
  | NObj o => if obj_is_type o then Return (obj_name o)
              else Raise (AttributeError "_name")
  | _ => Raise (AttributeError "_name")
  end.

Definition toy_get_kwargs :=
  _get_kwargs toy_type_str toy_instantiate merge_with_spec (Some "dict").

(** The node of the description's examples:
    [{_target_: "pkgA.Foo", a: {_target_: "pkgA.Bar", x: 1}, b: [1, 2]}],
    here with tags, a null field and an untargeted nested mapping. *)
Definition example_a : node :=
  NDict (Some "BarConf") [("_target_", NStr "pkgA.Bar"); ("x", NInt 1)].

Definition example_c : node :=
  NDict (Some "Plain")
    [("y", NNone);
     ("z", NDict (Some "Inner") [("_recursive_", NBool false); ("q", example_a)])].

Definition example_items : dict :=
  [("_target_", NStr "pkgA.Foo"); ("a", example_a); ("b", NList [NInt 1; NInt 2]);
   ("n", NNone); ("c", example_c);
   ("l", NList [NDict (Some "Elem") [("w", NInt 3)]; NInt 4])].

Definition example_node : node := NDict (Some "FooConf") example_items.

Definition built_Bar : node :=
  NObj (mk_pyobj "instance of pkgA.Bar" false false true).

(** ** Vocabulary of the statements *)

(** The target a dictionary supplies: the value bound to [_target_],
    unless that value is null. *)
Definition target_of (d : dict) : option node :=
  match lookup "_target_" d with
  | Some NNone => None
  | other => other
  end.


Definition is_bool (v : node) : bool :=
  match v with NBool _ => true | _ => false end.
Definition is_str (v : node) : bool :=
  match v with NStr _ => true | _ => false end.
Definition is_enum (v : node) : bool :=
  match v with NEnum _ => true | _ => false end.

(** A Python object that is a type or callable. *)
Definition constructible (o : pyobj) : bool := obj_is_type o || obj_callable o.

(** A scalar in the sense of the data model: anything that is not a
    container. *)
Definition is_scalar (v : node) : bool := negb (is_config v).

(** An untargeted mapping [x] came out as a mapping under the tag of
    [x]. *)
Definition keeps_tag (x o : node) : Prop :=
  match x with
  | NDict t _ => _is_target x = false -> exists outs, o = NDict t outs
  | _ => True
  end.

(** What the walk does to the tags below a field [v] whose processed
    value is [o]. *)
Definition field_keeps_tags (recursive : bool) (v o : node) : Prop :=
  if recursive then
    match v with
    | NDict t its =>
        _is_target v = false ->
        exists outs, o = NDict t outs
                     /\ Forall2 (fun kv ko => keeps_tag (snd kv) (snd ko)) its outs
    | NList elems => exists outs, o = NList outs /\ Forall2 keeps_tag elems outs
    | _ => True
    end
  else o = v.

(** What the walk does to one field [v] of the merged node: [o] is its
    value in the result. *)
Definition field_processed (instantiate : node -> outcome node) (v o : node) : Prop :=
  (is_none v = true -> o = v)
  /\ (_is_target v = true -> instantiate v = Return o)
  /\ (is_scalar v = true -> o = v).

(** What the walk leaves of one field [v] in the caller's node: [v'] is
    the field afterwards. Only an untargeted container can differ. *)
Definition field_left (v v' : node) : Prop :=
  (is_config v && negb (_is_target v) = false -> v' = v)
  /\ (forall t its, v = NDict t its -> exists its', v' = NDict t its')
  /\ (forall elems, v = NList elems -> exists elems', v' = NList elems').

(** The recursive call keeps a mapping and its tag, and a sequence, in
    the node it was given and in the node it returns. *)
Definition self_keeps_shape (self : node -> M (node * node)) : Prop :=
  (forall t its c r,
     self (NDict t its) = Some (Return (c, r)) ->
     exists its' outs, c = NDict t its' /\ r = NDict t outs)
  /\ (forall elems c r,
        self (NList elems) = Some (Return (c, r)) ->
        exists elems' outs, c = NList elems' /\ r = NList outs).

Fixpoint node_depth (v : node) : nat :=
  match v with
  | NDict _ items => S (list_max (map (fun kv => node_depth (snd kv)) items))
  | NList elems => S (list_max (map node_depth elems))
  | _ => 0
  end.

Definition dict_depth (d : dict) : nat :=
  list_max (map (fun kv => node_depth (snd kv)) d).

(** ** Column widths: [get_column_widths] *)

(** [l[i] = v] on a Python list; [None] stands for its IndexError. *)
Fixpoint list_assign (l : list nat) (i : nat) (v : nat) : option (list nat) :=
  match l, i with
  | [], _ => None
  | _ :: t, 0 => Some (v :: t)
  | h :: t, S i' =>
      match list_assign t i' v with
      | Some t' => Some (h :: t')
      | None => None
      end
  end.

(** [for idx, col in enumerate(row): widths[idx] = max(widths[idx], len(col))],
    over the cells of the row that are left, [idx] being the index of
    the first of them. *)
Fixpoint widen_by_row (widths : list nat) (idx : nat) (row : list string)
    : option (list nat) :=
  match row with
  | [] => Some widths
  | col :: rest =>
      match nth_error widths idx with
      | None => None
      | Some w =>
          match list_assign widths idx (Nat.max w (String.length col)) with
          | None => None
          | Some widths' => widen_by_row widths' (S idx) rest
          end
      end
  end.

(** The second [for row in matrix] loop. *)
Fixpoint widen_by_rows (widths : list nat) (matrix : list (list string))
    : option (list nat) :=
  match matrix with
  | [] => Some widths
  | row :: rest =>
      match widen_by_row widths 0 row with
      | None => None
      | Some widths' => widen_by_rows widths' rest
      end
  end.

(** The first loop: [num_cols = max(num_cols, len(row))] over the rows. *)
Definition count_columns (matrix : list (list string)) : nat :=
  fold_left (fun num_cols row => Nat.max num_cols (List.length row)) matrix 0.

Definition get_column_widths (matrix : list (list string)) : option (list nat) :=
  let num_cols := count_columns matrix in
  widen_by_rows (repeat 0 num_cols) matrix.

(** The length of the cell of a row in a column, 0 where the row has no
    such cell. *)
Definition cell_length (row : list string) (idx : nat) : nat :=
  match nth_error row idx with
  | Some col => String.length col
  | None => 0
  end.

(** ** The target name: [_get_cls_name] *)

(** The two InstantiationExceptions of [_get_cls_name]. *)
Inductive cls_name_error : Type :=
| NoTargetField        (* "Input config does not have a `_target_` field" *)
| TargetNotString.     (* "_target_ field type must be a string" *)

(** [_get_cls_name(config, pop)]: the dictionary after the call, and the
    name or the exception. With [pop] the key is removed before its
    type is checked. *)
Definition _get_cls_name (config : dict) (pop : bool)
    : dict * (cls_name_error + string) :=
  if negb (contains "_target_" config) then (config, inl NoTargetField)
  else
    let config' := if pop then remove "_target_" config else config in
    match lookup "_target_" config with
    | Some (NStr classname) => (config', inr classname)
    | _ => (config', inl TargetNotString)
    end.

(** A merge binds no key that neither side binds. *)
Definition merge_adds_no_key (merge_with : dict -> dict -> dict) : Prop :=
  forall a b k, lookup k a = None -> lookup k b = None ->
                lookup k (merge_with a b) = None.

(** A merge with an empty overlay changes nothing. *)
Definition merge_empty_overlay (merge_with : dict -> dict -> dict) : Prop :=
  forall a, merge_with a [] = a.

(** ** Strings: [str.rfind], slices, [str.replace] *)

(** [s.rfind(c)] for one character: the index of its last occurrence;
    [None] is Python's -1. *)
Fixpoint rfind (c : ascii) (s : string) : option nat :=
  match s with
  | EmptyString => None
  | String a rest =>
      match rfind c rest with
      | Some i => Some (S i)
      | None => if Ascii.eqb a c then Some 0 else None
      end
  end.

(** [s[n:]] *)
Fixpoint str_drop (n : nat) (s : string) : string :=
  match n, s with
  | 0, _ => s
  | S n', String _ rest => str_drop n' rest
  | S _, EmptyString => EmptyString
  end.

(** [s[0:n]] *)
Fixpoint str_take (n : nat) (s : string) : string :=
  match n, s with
  | 0, _ => EmptyString
  | S n', String a rest => String a (str_take n' rest)
  | S _, EmptyString => EmptyString
  end.

(** [s.replace(a, b)] for single characters. *)
Fixpoint replace_char (a b : ascii) (s : string) : string :=
  match s with
  | EmptyString => EmptyString
  | String c rest => String (if Ascii.eqb c a then b else c) (replace_char a b rest)
  end.

(** ** Where the application was called from *)

(** [_get_module_name_override()]; [environ] is [os.environ]. *)
Definition _get_module_name_override (environ : string -> option string)
    : option string :=
  (fix loop (module_envs : list string) : option string :=
     match module_envs with
     | [] => None
     | module_env :: rest =>
         match environ module_env with
         | Some value => Some value
         | None => loop rest
         end
     end)
    ["HYDRA_MAIN_MODULE"; "FB_PAR_MAIN_MODULE"; "FB_XAR_MAIN_MODULE"].

(** [_is_env_set(name)] *)
Definition _is_env_set (environ : string -> option string) (name : string) : bool :=
  match environ name with
  | Some value => value =? "1"
  | None => false
  end.

(** What the code reads of a task function: [__module__] and
    [__code__.co_filename]. *)
Record task_function : Type := mk_task_function {
  fn_module : option string;
  fn_filename : string
}.

Section CallingContext.

(** [os.path.basename], the root of [os.path.splitext], and
    [hydra.core.utils.get_valid_filename]. *)
Variable basename : string -> string.
Variable splitext_root : string -> string.
Variable get_valid_filename : string -> string.

(** [detect_task_name]; [None] is its [raise ValueError()]. *)
Definition detect_task_name (calling_file calling_module : option string)
    : option string :=
  match calling_file, calling_module with
  | Some file, _ =>
      let target_file := basename file in
      Some (get_valid_filename (splitext_root target_file))
  | None, Some module =>
      match rfind dot module with
      | Some last_dot => Some (str_drop (last_dot + 1) module)
      | None => Some module
      end
  | None, None => None
  end.

(** [detect_calling_file_or_module_from_task_function]; [None] is the
    ValueError of [detect_task_name]. *)
Definition detect_calling_file_or_module_from_task_function
    (environ : string -> option string) (f : task_function)
    : option (option string * option string * string) :=
  let mdl := fn_module f in
  let mdl := match _get_module_name_override environ with
             | Some override => Some override
             | None => mdl
             end in
  let (calling_file, calling_module) :=
    match mdl with
    | None => (Some (fn_filename f), None)
    | Some m => if m =? "__main__" then (Some (fn_filename f), None)
                else (None, Some m)
    end in
  match detect_task_name calling_file mdl with
  | Some task_name => Some (calling_file, calling_module, task_name)
  | None => None
  end.

End CallingContext.

(** ** The search path of the application: [compute_search_path_dir] *)

(** [calling_module[0:last_dot]], or the empty string without a dot. *)
Definition parent_package (calling_module : string) : string :=
  match rfind dot calling_module with
  | Some last_dot => str_take last_dot calling_module
  | None => ""
  end.

(** [while str.startswith(config_path, "../"): ...], with a bound on the
    number of rounds: the path and the module at the end. *)
Fixpoint strip_parent_dirs (rounds : nat) (config_path calling_module : string)
    : string * string :=
  match rounds with
  | 0 => (config_path, calling_module)
  | S rounds' =>
      if prefix "../" config_path
      then strip_parent_dirs rounds' (str_drop (String.length "../") config_path)
             (parent_package calling_module)
      else (config_path, calling_module)
  end.

Section SearchPath.

(** [os.path.sep], and [realpath], [dirname], [join], [normpath] of
    [os.path]. *)
Variable sep : ascii.
Variable realpath : string -> string.
Variable dirname : string -> string.
Variable path_join : string -> string -> string.
Variable normpath : string -> string.

(** [compute_search_path_dir]; [None] is its [raise ValueError()]. The
    loop is given as many rounds as the path has characters, more than
    it can use. *)
Definition compute_search_path_dir
    (calling_file calling_module config_path : option string) : option string :=
  match calling_file, calling_module with
  | Some file, _ =>
      let abs_base_dir := realpath (dirname file) in
      let search_path_dir :=
        match config_path with
        | Some cp => path_join abs_base_dir cp
        | None => abs_base_dir
        end in
      Some (normpath search_path_dir)
  | None, Some module =>
      let module := parent_package module in
      match config_path with
      | Some cp =>
          let cp := replace_char sep "/" cp in
          let (cp, module) := strip_parent_dirs (String.length cp) cp module in
          let search_path_dir := "pkg://" ++ module in
          if negb (module =? "") then Some (search_path_dir ++ "/" ++ cp)
          else Some (search_path_dir ++ cp)
      | None => Some ("pkg://" ++ module)
      end
  | None, None => None
  end.

End SearchPath.

(** ** Targets as strings: [_convert_container_targets_to_strings] *)

(** [d[k] = v] on a Python dict: the binding of [k] is replaced where it
    stands, a new key goes to the end. *)
Fixpoint assign (k : string) (v : node) (d : dict) : dict :=
  match d with
  | [] => [(k, v)]
  | (k', v') :: d' => if k' =? k then (k', v) :: d' else (k', v') :: assign k v d'
  end.

(** A loop over the values of a dict, or over the elements of a list,
    that changes them in place and stops at the first exception. *)
Fixpoint map_values (f : node -> M node) (d : dict) : M dict :=
  match d with
  | [] => ret []
  | (k, v) :: rest =>
      v' <- f v ;;
      rest' <- map_values f rest ;;
      ret ((k, v') :: rest')
  end.

Fixpoint map_elems (f : node -> M node) (l : list node) : M (list node) :=
  match l with
  | [] => ret []
  | e :: rest =>
      e' <- f e ;;
      rest' <- map_elems f rest ;;
      ret (e' :: rest')
  end.

Section TargetStrings.

(** [t.__module__] and [t.__name__], and [t.__qualname__], which a
    callable that is no class or function (a [functools.partial], an
    instance with [__call__]) does not have. *)
Variable module_of : pyobj -> string.
Variable name_of : pyobj -> string.
Variable qualname_of : pyobj -> option string.

Definition _convert_target_to_string (t : node) : outcome node :=
  match t with
  | NObj o =>
      if obj_is_type o then Return (NStr (module_of o ++ "." ++ name_of o))
      else if obj_callable o then
        match qualname_of o with
        | Some qualname => Return (NStr (module_of o ++ "." ++ qualname))
        | None => Raise (AttributeError "__qualname__")
        end
      else Return t
  | _ => Return t
  end.

(** [_convert_container_targets_to_strings(d)]: the container as the
    call leaves it when it returns. Here [NDict] and [NList] stand for
    the [dict] and [list] the function tests for; a tag is carried
    along. [fuel] bounds the depth of the recursion. *)
Fixpoint _convert_container_targets_to_strings (fuel : nat) (d : node) : M node :=
  match fuel with
  | 0 => None
  | S fuel' =>
      match d with
      | NDict tag items =>
          items1 <- match lookup "_target_" items with
                    | Some t =>
                        t' <- Some (_convert_target_to_string t) ;;
                        ret (assign "_target_" t' items)
                    | None => ret items
                    end ;;
          items2 <- map_values (_convert_container_targets_to_strings fuel') items1 ;;
          ret (NDict tag items2)
      | NList elems =>
          elems' <- map_elems
                      (fun e => if is_config e
                                then _convert_container_targets_to_strings fuel' e
                                else ret e) elems ;;
          ret (NList elems')
      | _ => ret d
      end
  end.

End TargetStrings.

(** A value that is a type or a callable object. *)
Definition is_constructible_object (v : node) : bool :=
  match v with
  | NObj o => constructible o
  | _ => false
  end.

(** No mapping in the tree binds [_target_] to a type or a callable. *)
Fixpoint targets_are_plain (v : node) : bool :=
  match v with
  | NDict _ items =>
      match lookup "_target_" items with
      | Some t => negb (is_constructible_object t)
      | None => true
      end
      && forallb (fun kv => targets_are_plain (snd kv)) items
  | NList elems => forallb targets_are_plain elems
  | _ => true
  end.

(** ** Reporting an exception: [run_and_report] *)

(** What the handler reads of a traceback entry: the name of the
    function of its frame, the name of the module of the frame
    ([inspect.getmodule], which may find none), and its line. *)
Record frame : Type := mk_frame {
  fr_function : string;
  fr_module : option string;
  fr_lineno : nat
}.

(** A traceback, outermost entry first; [ex.__traceback__ is None] is
    the empty list. *)
Definition traceback : Type := list frame.

(** What the handler reads of the exception [func] raised: its text,
    whether it is a CompactHydraException, the text of its cause when
    the cause is an OmegaConfBaseException, and its traceback. *)
Record py_exception : Type := mk_py_exception {
  ex_text : string;
  ex_is_compact : bool;
  ex_omegaconf_cause : option string;
  ex_traceback : traceback
}.

(** [func()]: a value, or an exception of class Exception. *)
Inductive call_result (V : Type) : Type :=
| FReturn (v : V)
| FRaise (ex : py_exception).
Arguments FReturn {V} v.
Arguments FRaise {V} ex.

(** What goes to the standard error stream. *)
Inductive stderr_event : Type :=
| Write (text : string)               (* sys.stderr.write(text) *)
| PrintExc                            (* print_exc(): the whole traceback *)
| PrintException (tb : traceback).    (* print_exception(value=ex, tb=tb) *)

(** An exception raised by the handler itself. *)
Inductive handler_crash : Type :=
| HandlerAssertionError    (* assert mdl is not None *)
| HandlerAttributeError.   (* iter_tb.tb_lasti with iter_tb None *)

(** How [run_and_report] ends. *)
Inductive report (V : Type) : Type :=
| Returned (v : V)
| Reraised (ex : py_exception)
| Exited (code : nat) (err : list stderr_event)
| Crashed (e : handler_crash).
Arguments Returned {V} v.
Arguments Reraised {V} ex.
Arguments Exited {V} code err.
Arguments Crashed {V} e.

Definition full_error_hint : string :=
  String "010"
    "Set the environment variable HYDRA_FULL_ERROR=1 for a complete stack trace."
  ++ String "010" "".

(** The first loop: strip the entries down to and with the one of
    [run_job]; [search_max] and [tb] at the end. *)
Fixpoint strip_hydra_frames (search_max : nat) (tb : traceback) : nat * traceback :=
  match search_max with
  | 0 => (0, tb)
  | S search_max' =>
      match tb with
      | [] => (search_max, tb)
      | entry :: next =>
          if fr_function entry =? "run_job" then (search_max', next)
          else strip_hydra_frames search_max' next
      end
  end.

(** The second loop: count the entries before the first of OmegaConf;
    [None] is the AssertionError. *)
Fixpoint count_frames (end_ : traceback) (num_frames : nat) : option nat :=
  match end_ with
  | [] => Some num_frames
  | entry :: next =>
      match fr_module entry with
      | None => None
      | Some name =>
          if prefix "omegaconf." name then Some num_frames
          else count_frames next (S num_frames)
      end
  end.

(** [added == num_frames - 1] on Python integers. *)
Definition is_last_frame (added num_frames : nat) : bool :=
  match num_frames with
  | 0 => false
  | S m => Nat.eqb added m
  end.

(** The third loop, [while True]: copy entries into a new traceback;
    [None] is the AttributeError of reading an entry of [None]. *)
Fixpoint copy_frames (iter_tb : traceback) (added num_frames : nat)
    : option traceback :=
  match iter_tb with
  | [] => None
  | entry :: next =>
      if is_last_frame added num_frames then Some [entry]
      else match copy_frames next (S added) num_frames with
           | Some rest => Some (entry :: rest)
           | None => None
           end
  end.

Definition run_and_report {V : Type} (environ : string -> option string)
    (linesep : string) (func : call_result V) : report V :=
  match func with
  | FReturn v => Returned v
  | FRaise ex =>
      if _is_env_set environ "HYDRA_FULL_ERROR" then Reraised ex
      else if ex_is_compact ex then
        Exited 1
          ([Write (ex_text ex ++ linesep)]
           ++ match ex_omegaconf_cause ex with
              | Some cause => [Write (cause ++ linesep)]
              | None => []
              end
           ++ [Write full_error_hint])%list
      else
        let (search_max, tb) := strip_hydra_frames 10 (ex_traceback ex) in
        if Nat.eqb search_max 0 || match tb with [] => true | _ => false end
        then Exited 1 [PrintExc]
        else
          match count_frames tb 0 with
          | None => Crashed HandlerAssertionError
          | Some num_frames =>
              match copy_frames tb 0 num_frames with
              | None => Crashed HandlerAttributeError
              | Some final_tb =>
                  Exited 1 [PrintException final_tb; Write full_error_hint]
              end
          end
  end.

(** An entry of a module of OmegaConf, and one of a known other module. *)
Definition in_omegaconf (entry : frame) : bool :=
  match fr_module entry with
  | Some name => prefix "omegaconf." name
  | None => false
  end.

Definition outside_omegaconf (entry : frame) : bool :=
  match fr_module entry with
  | Some name => negb (prefix "omegaconf." name)
  | None => false
  end.

Definition is_run_job (entry : frame) : bool := fr_function entry =? "run_job".

(** A traceback to run [run_and_report] on: two entries of Hydra, the
    entry of [run_job], two of the application and one of OmegaConf. *)
Definition example_traceback : traceback :=
  [mk_frame "run_and_report" (Some "hydra._internal.utils") 196;
   mk_frame "run" (Some "hydra._internal.hydra") 100;
   mk_frame "run_job" (Some "hydra.core.utils") 129;
   mk_frame "my_app" (Some "__main__") 12;
   mk_frame "helper" (Some "mylib.tools") 40;
   mk_frame "__getattr__" (Some "omegaconf.dictconfig") 305;
   mk_frame "_format_and_raise" (Some "omegaconf.base") 95].

Definition example_exception (tb : traceback) : py_exception :=
  mk_py_exception "Missing key foo" false None tb.

Definition no_environ : string -> option string := fun _ => None.

(** ** The command of a run: the [try] block of [_run_hydra] *)

(** The fields of the parsed arguments the block reads. *)
Record parsed_args : Type := mk_parsed_args {
  arg_help : bool;
  arg_hydra_help : bool;
  arg_cfg : option string;
  arg_run : bool;
  arg_multirun : bool;
  arg_shell_completion : bool;
  arg_info : bool
}.

(** What the block does. *)
Inductive dispatch : Type :=
| AppHelp              (* hydra.app_help(...); sys.exit(0) *)
| HydraHelp            (* hydra.hydra_help(...); sys.exit(0) *)
| TooManyCommands      (* raise ValueError("Only one of --run, ...") *)
| RunJob               (* run_and_report(hydra.run) *)
| MultiRun             (* run_and_report(hydra.multirun) *)
| ShowCfg (cfg : string)   (* run_and_report(hydra.show_cfg(cfg_type=args.cfg)) *)
| ShellCompletion      (* run_and_report(hydra.shell_completion) *)
| ShowInfo             (* hydra.show_info(...) *)
| NotSpecified.        (* "Command not specified", sys.exit(1) *)

(** A bool as the integer Python adds. *)
Definition int_of_bool (b : bool) : nat := if b then 1 else 0.

(** The truth value of [args.cfg]. *)
Definition cfg_truthy (cfg : option string) : bool :=
  match cfg with
  | Some s => negb (s =? "")
  | None => false
  end.

(** [num_commands] *)
Definition num_commands (args : parsed_args) : nat :=
  let has_show_cfg := match arg_cfg args with Some _ => true | None => false end in
  int_of_bool (arg_run args) + int_of_bool has_show_cfg
  + int_of_bool (arg_multirun args) + int_of_bool (arg_shell_completion args)
  + int_of_bool (arg_info args).

(** Lines 324-378 of [_run_hydra], once the Hydra object is there. *)
Definition run_hydra_command (args : parsed_args) : dispatch :=
  if arg_help args then AppHelp
  else if arg_hydra_help args then HydraHelp
  else
    let num := num_commands args in
    if Nat.ltb 1 num then TooManyCommands
    else
      let run := if Nat.eqb num 0 then true else arg_run args in
      if run then RunJob
      else if arg_multirun args then MultiRun
      else if cfg_truthy (arg_cfg args)
      then ShowCfg (match arg_cfg args with Some cfg => cfg | None => "" end)
      else if arg_shell_completion args then ShellCompletion
      else if arg_info args then ShowInfo
      else NotSpecified.



(** Nodes without a class behind them, as [OmegaConf.create] makes them
    of plain dictionaries. *)
Definition plain_target : node :=
  NDict (Some "dict") [("_target_", NStr "pkgA.Bar"); ("x", NInt 1)].


Definition plain_nested_items : dict :=
  [("c", NDict (Some "dict") [("q", plain_target); ("y", NInt 2)]);
   ("l", NList [plain_target; NDict (Some "dict") [("w", NInt 3)]; NInt 4])].

(** [n] times ["../"]. *)
Fixpoint up_dirs (n : nat) : string :=
  match n with
  | 0 => ""
  | S n' => "../" ++ up_dirs n'
  end.

(** * Properties *)

Example toy_locate_Foo :
  snd (toy_locate toy_start "pkg.Foo") = Return toy_Foo.
Proof. reflexivity. Qed.

Example toy_locate_Bar :
  toy_locate toy_start "pkg.sub.Bar"
  = (mk_istate ["pkg.sub"] ["pkg.sub"], Return toy_Bar).
Proof. reflexivity. Qed.

(** ** Lists and strings *)

Lemma split_on_no_dot (s : string) :
  has_dot s = false -> split_on dot s = [s].
Proof.
  unfold has_dot.
  induction s as [|c rest IH]; intros H; [reflexivity|].
  cbn [list_ascii_of_string existsb] in H.
  apply orb_false_iff in H. destruct H as [Hc Hrest].
  rewrite Ascii.eqb_sym in Hc.
  cbn [split_on]. rewrite Hc, (IH Hrest). reflexivity.
Qed.

Lemma append_assoc (a b c : string) :
  ((a ++ b) ++ c)%string = (a ++ (b ++ c))%string.
Proof.
  induction a as [|x a IH]; simpl; [reflexivity|]. now rewrite IH.
Qed.

Lemma concat_snoc (sep : string) (l : list string) (x : string) :
  l <> [] -> String.concat sep (l ++ [x]) = (String.concat sep l ++ sep ++ x)%string.
Proof.
  induction l as [|a l IH]; intros Hne; [congruence|].
  destruct l as [|b l].
  - simpl. reflexivity.
  - change (String.concat sep ((a :: b :: l) ++ [x]))
      with (a ++ sep ++ String.concat sep ((b :: l) ++ [x]))%string.
    rewrite IH by discriminate.
    change (String.concat sep (a :: b :: l))
      with (a ++ sep ++ String.concat sep (b :: l))%string.
    rewrite !append_assoc. reflexivity.
Qed.

Lemma firstn_succ_nth (A : Type) (d : A) (l : list A) (j : nat) :
  j < length l -> firstn (S j) l = (firstn j l ++ [nth j l d])%list.
Proof.
  revert j. induction l as [|a l IH]; intros j Hj; simpl in Hj; [lia|].
  destruct j as [|j]; [reflexivity|].
  change (firstn (S (S j)) (a :: l)) with (a :: firstn (S j) l).
  rewrite (IH j) by lia. reflexivity.
Qed.

Lemma skipn_cons_nth (A : Type) (d : A) (l : list A) (j : nat) :
  j < length l -> skipn j l = nth j l d :: skipn (S j) l.
Proof.
  revert j. induction l as [|a l IH]; intros j Hj; simpl in Hj; [lia|].
  destruct j as [|j]; [reflexivity|].
  simpl. apply IH. lia.
Qed.

Lemma join_prefix_step (parts : list string) (j : nat) :
  1 <= j -> j < length parts ->
  (join "." (firstn j parts) ++ "." ++ nth j parts "")%string
  = join "." (firstn (S j) parts).
Proof.
  intros H1 Hj. unfold join.
  rewrite (firstn_succ_nth "" parts Hj).
  rewrite concat_snoc; [reflexivity|].
  destruct parts as [|a l]; [simpl in Hj; lia|].
  destruct j; [lia|discriminate].
Qed.

(** ** The symbol resolver *)

Section LocateFacts.

Variable world : Type.
Variable import_module : world -> string -> world * (string + pyobj).
Variable getattr : world -> pyobj -> string -> option pyobj.
Variable builtins : pyobj.

Lemma rev_seq_succ (k : nat) : rev (seq 0 (S k)) = k :: rev (seq 0 k).
Proof. rewrite seq_S, rev_app_distr. reflexivity. Qed.

(** The first loop against the ordered search: it ends on the first
    prefix that imports to a true value, and raises when the empty
    prefix is reached. *)
Lemma search_loop_first_importable (path : string) (parts : list string) :
  empty_name_fails import_module ->
  forall k st vars,
    match first_importable import_module
            (map (fun n => (n, join "." (firstn n parts))) (rev (seq 0 (S k)))) st with
    | (st1, None) =>
        search_loop import_module path parts (rev (seq 0 (S k))) st vars
        = (st1, Raise (ImportError_Loading path))
    | (st1, Some (n, m)) =>
        search_loop import_module path parts (rev (seq 0 (S k))) st vars
        = (st1, Return (mk_locals (Some n) (Some (join "." (firstn n parts))) (Some m)))
        /\ obj_truthy m = true /\ 1 <= n <= k
    end.
Proof.
  intros Hempty k. induction k as [|k IH]; intros st vars.
  - cbn [seq rev app map first_importable search_loop firstn join String.concat].
    unfold do_import.
    destruct (Hempty (st_world st)) as (w' & e & He). rewrite He.
    reflexivity.
  - rewrite rev_seq_succ.
    cbn [map first_importable search_loop].
    destruct (do_import import_module st (join "." (firstn (S k) parts))) as [st' [e|m]].
    + cbn [Nat.eqb].
      specialize (IH st' (mk_locals (Some (S k)) (Some (join "." (firstn (S k) parts)))
                            (v_module vars))).
      destruct (first_importable _ _ st') as [st1 [[n m]|]].
      * destruct IH as (E & T & B). repeat split; try assumption; lia.
      * exact IH.
    + cbn [truthy]. destruct (obj_truthy m) eqn:Hm.
      * repeat split; try assumption; lia.
      * specialize (IH st' (mk_locals (Some (S k)) (Some (join "." (firstn (S k) parts)))
                              (Some m))).
        destruct (first_importable _ _ st') as [st1 [[n m']|]].
        -- destruct IH as (E & T & B). repeat split; try assumption; lia.
        -- exact IH.
Qed.

(** The second loop against attribute resolution by position: the
    accumulated name is the dotted prefix that ends in the segment. *)
Lemma attr_loop_resolve (path : string) (parts : list string) :
  forall count j st obj,
    1 <= j -> j + count = length parts ->
    attr_loop import_module getattr path (skipn j parts) st (join "." (firstn j parts)) obj
    = resolve_attributes import_module getattr path parts count j st obj.
Proof.
  induction count as [|count IH]; intros j st obj H1 Hlen.
  - rewrite skipn_all2 by lia. reflexivity.
  - rewrite (skipn_cons_nth "" parts) by lia.
    cbn [attr_loop resolve_attributes]. unfold hasattr.
    rewrite join_prefix_step by lia.
    destruct (getattr (st_world st) obj (nth j parts "")) as [o|].
    + apply IH; lia.
    + destruct (do_import import_module st (join "." (firstn (S j) parts)))
        as [st' [e|m]]; [reflexivity|].
      destruct (getattr (st_world st') obj (nth j parts "")) as [o|]; [|reflexivity].
      apply IH; lia.
Qed.

(** C3, as the code has it: for a path with at least one segment the
    resolver offers the importer the prefixes from all segments but the
    last down to the empty one (never the whole path), takes the first
    that imports as its base, and resolves the segments after it as
    attributes in order, a missing attribute getting one import of the
    dotted path up to that segment before the failure. *)
Theorem locate_follows_prefix_search (st : istate world) (path : string) :
  empty_name_fails import_module ->
  segments path <> [] ->
  _locate import_module getattr builtins st path
  = locate_spec import_module getattr st path.
Proof.
  intros Hempty Hseg.
  unfold _locate, locate_spec.
  destruct (path =? "") eqn:Hp.
  { apply String.eqb_eq in Hp. subst path. exfalso. apply Hseg. reflexivity. }
  fold (segments path). unfold candidate_prefixes.
  destruct (segments path) as [|p0 ps] eqn:Hparts; [congruence|].
  set (parts := p0 :: ps) in *.
  change (length parts) with (S (length ps)).
  pose proof (search_loop_first_importable path parts Hempty (length ps) st
                (mk_locals None None None)) as Hs.
  destruct (first_importable import_module _ st) as [st1 [[n m]|]].
  - destruct Hs as (E & T & B). rewrite E.
    cbn [v_module v_n v_mod truthy]. rewrite T.
    rewrite (attr_loop_resolve path parts (S (length ps) - n) st1 m)
      by (subst parts; cbn [length]; lia).
    destruct (resolve_attributes import_module getattr path parts
                (S (length ps) - n) n st1 m) as [st2 [o|e]]; [|reflexivity].
    destruct (obj_is_type o), (obj_callable o); reflexivity.
  - rewrite Hs. reflexivity.
Qed.

(** C10: a path without a dot never resolves. The empty path is
    refused at once; any other offers the importer the empty prefix
    only, and the failure of that import is raised as an ImportError,
    whatever the segment names. *)
Theorem locate_single_segment_raises (st : istate world) (path : string) :
  empty_name_fails import_module ->
  has_dot path = false ->
  exists st' e,
    _locate import_module getattr builtins st path = (st', Raise e)
    /\ class_of e = CImportError
    /\ (path <> "" -> st_imports st' = (st_imports st ++ [""])%list).
Proof.
  intros Hempty Hdot. unfold _locate.
  destruct (path =? "") eqn:Hp.
  { exists st, ImportError_EmptyPath. apply String.eqb_eq in Hp.
    repeat split. intros Hne. congruence. }
  rewrite (split_on_no_dot path Hdot).
  cbn [filter]. unfold nonempty. rewrite Hp.
  cbn [negb length seq rev app search_loop firstn join String.concat].
  unfold do_import.
  destruct (Hempty (st_world st)) as (w' & e & He). rewrite He.
  cbn [Nat.eqb].
  eexists _, _. repeat split.
Qed.

(** C4 at the path ".": no segment is left, the first loop does not
    run, and reading [n] after it raises UnboundLocalError, which is
    not a resolution error. *)
Theorem locate_only_dots_unbound_local (st : istate world) :
  _locate import_module getattr builtins st "."
  = (st, Raise (UnboundLocalError "n"))
  /\ is_resolution_error (UnboundLocalError "n") = false.
Proof. split; reflexivity. Qed.



End LocateFacts.

Lemma toy_empty_name_fails : empty_name_fails toy_import.
Proof. intros w. exists w, "Empty module name". reflexivity. Qed.

Lemma locate_follows_prefix_search_witness :
  _locate toy_import toy_getattr toy_builtins toy_start "pkg.sub.Bar"
  = locate_spec toy_import toy_getattr toy_start "pkg.sub.Bar".
Proof.
  apply (@locate_follows_prefix_search (list string) toy_import toy_getattr
           toy_builtins toy_start "pkg.sub.Bar").
  - exact toy_empty_name_fails.
  - vm_compute. discriminate.
Defined.

(** C3 as stated fails: both [pkg] and [pkg.sub] import, yet the first
    name offered to the importer for "pkg.sub" is "pkg", not the whole
    path; the whole path is imported only afterwards, as the fallback
    for the missing attribute [sub]. *)
Lemma locate_first_import_is_not_whole_path :
  join "." (segments "pkg.sub") = "pkg.sub"
  /\ snd (toy_import [] "pkg.sub") = inr (toy_module "pkg.sub")
  /\ st_imports (fst (toy_locate toy_start "pkg.sub")) = ["pkg"; "pkg.sub"]
  /\ ~ (exists rest,
          st_imports (fst (toy_locate toy_start "pkg.sub"))
          = join "." (segments "pkg.sub") :: rest)
  /\ hd_error (candidate_prefixes_all (segments "pkg.sub")) = Some (2, "pkg.sub")
  /\ hd_error (candidate_prefixes (segments "pkg.sub")) = Some (1, "pkg").
Proof.
  repeat split; try reflexivity.
  intros [rest H]. vm_compute in H. discriminate.
Qed.

Lemma locate_single_segment_raises_witness :
  exists st' e,
    _locate toy_import toy_getattr toy_builtins toy_start "pkg" = (st', Raise e)
    /\ class_of e = CImportError
    /\ ("pkg" <> "" -> st_imports st' = (st_imports toy_start ++ [""])%list).
Proof.
  apply (@locate_single_segment_raises (list string) toy_import toy_getattr
           toy_builtins toy_start "pkg").
  - exact toy_empty_name_fails.
  - reflexivity.
Defined.

Example toy_locate_builtin_len :
  snd (toy_import [] "builtins") = inr toy_builtins
  /\ toy_getattr [] toy_builtins "len" = Some toy_len
  /\ snd (toy_locate toy_start "len") = Raise (ImportError_Loading "len").
Proof. repeat split. Qed.

(** ** Dictionaries *)

Lemma lookup_remove_same (k : string) (d : dict) : lookup k (remove k d) = None.
Proof.
  induction d as [|[k' v] d IH]; [reflexivity|].
  cbn [remove]. destruct (k' =? k) eqn:E; [exact IH|].
  cbn [lookup]. rewrite E. exact IH.
Qed.

Lemma contains_remove_same (k : string) (d : dict) : contains k (remove k d) = false.
Proof. unfold contains. now rewrite lookup_remove_same. Qed.

Lemma remove_absent (k : string) (d : dict) : lookup k d = None -> remove k d = d.
Proof.
  induction d as [|[k' v] d IH]; [reflexivity|].
  cbn [lookup remove]. destruct (k' =? k); [discriminate|].
  intros H. now rewrite IH.
Qed.

Lemma lookup_remove_other (k k' : string) (d : dict) :
  k <> k' -> lookup k' (remove k d) = lookup k' d.
Proof.
  intros Hne. induction d as [|[k0 v] d IH]; [reflexivity|].
  cbn [remove lookup]. destruct (k0 =? k) eqn:E.
  - apply String.eqb_eq in E. subst k0.
    destruct (k =? k') eqn:E'; [apply String.eqb_eq in E'; congruence|exact IH].
  - cbn [lookup]. destruct (k0 =? k'); [reflexivity|exact IH].
Qed.

(** ** Recursion policy *)

Lemma is_rec_state (type_str : node -> outcome string) (d : dict) :
  fst (_is_rec type_str d) = remove "_recursive_" d.
Proof.
  unfold _is_rec. destruct (lookup "_recursive_" d) as [v|] eqn:E.
  - destruct v; try reflexivity; destruct (type_str _); reflexivity.
  - cbn [fst]. symmetry. now apply remove_absent.
Qed.


(** C5 at an overlay that binds [_recursive_] to a value that is no
    boolean: when [type_str] raises on that value, as it does on a
    string, the call ends in that exception, raised while the message
    of the ValueError is being built, and not in the ValueError; the
    key has left the overlay and the node is as it was. *)
Theorem is_recursive_error_is_of_type_str (type_str : node -> outcome string)
    (config kwargs : dict) (rec : node) (e : exn) :
  lookup "_recursive_" kwargs = Some rec ->
  is_bool rec = false ->
  type_str rec = Raise e ->
  _is_recursive type_str config kwargs = (config, remove "_recursive_" kwargs, Raise e).
Proof.
  intros Hl Hb He. unfold _is_recursive, _is_rec. rewrite Hl.
  destruct rec; try discriminate; rewrite He; reflexivity.
Qed.

Lemma is_recursive_error_is_of_type_str_witness :
  _is_recursive toy_type_str [("a", NInt 1)] [("_recursive_", NStr "yes")]
  = ([("a", NInt 1)], remove "_recursive_" [("_recursive_", NStr "yes")],
     Raise (AttributeError "_name"))
  /\ class_of (AttributeError "_name") <> CValueError.
Proof.
  split; [|discriminate].
  apply (@is_recursive_error_is_of_type_str toy_type_str [("a", NInt 1)]
           [("_recursive_", NStr "yes")] (NStr "yes") (AttributeError "_name"));
    reflexivity.
Defined.

(** The four cases of the precedence table, run. *)
Example is_recursive_four_cases :
  snd (_is_recursive toy_type_str [("a", NInt 1)] [("_recursive_", NBool true)])
  = Return true
  /\ snd (_is_recursive toy_type_str [("_recursive_", NBool false)] []) = Return false
  /\ snd (_is_recursive toy_type_str [("_recursive_", NBool true)]
            [("_recursive_", NBool false)])
     = Return false
  /\ snd (_is_recursive toy_type_str [("a", NInt 1)] []) = Return true.
Proof. repeat split. Qed.

(** ** Convert mode *)

(** C8 as stated fails: [_convert_] bound to None is a present value
    that is neither a string nor an enumeration value, and the call
    returns the default instead of raising. *)
Lemma pop_convert_mode_null_is_default :
  lookup "_convert_" [("_convert_", NNone); ("x", NInt 1)] = Some NNone
  /\ is_str NNone = false /\ is_enum NNone = false
  /\ _pop_convert_mode [("_convert_", NNone); ("x", NInt 1)]
     = ([("x", NInt 1)], Return NONE)
  /\ snd (_pop_convert_mode [("_convert_", NNone); ("x", NInt 1)])
     <> Raise Inst_ConvertType.
Proof. repeat split. discriminate. Qed.

(** C8, as the code has it: the three literals map to their modes, any
    other string raises the value error, an enumeration value is
    returned as it is, a bound None or an unbound key gives NONE, and
    any other bound value raises the type error; the key is gone
    afterwards. *)
Theorem pop_convert_mode_cases (d : dict) :
  fst (_pop_convert_mode d) = remove "_convert_" d
  /\ (lookup "_convert_" d = Some (NStr "none") -> snd (_pop_convert_mode d) = Return NONE)
  /\ (lookup "_convert_" d = Some (NStr "partial") ->
      snd (_pop_convert_mode d) = Return PARTIAL)
  /\ (lookup "_convert_" d = Some (NStr "all") -> snd (_pop_convert_mode d) = Return ALL)
  /\ (forall s, lookup "_convert_" d = Some (NStr s) ->
        s <> "none" -> s <> "partial" -> s <> "all" ->
        snd (_pop_convert_mode d) = Raise (Inst_ConvertValue s))
  /\ (forall m, lookup "_convert_" d = Some (NEnum m) ->
        snd (_pop_convert_mode d) = Return m)
  /\ (forall v, lookup "_convert_" d = Some v ->
        is_none v = false -> is_str v = false -> is_enum v = false ->
        snd (_pop_convert_mode d) = Raise Inst_ConvertType)
  /\ (lookup "_convert_" d = Some NNone -> snd (_pop_convert_mode d) = Return NONE)
  /\ (lookup "_convert_" d = None -> _pop_convert_mode d = (d, Return NONE)).
Proof.
  unfold _pop_convert_mode.
  split.
  { destruct (lookup "_convert_" d) as [v|] eqn:E.
    - destruct v; try reflexivity.
      destruct (s =? "none"), (s =? "partial"), (s =? "all"); reflexivity.
    - symmetry. now apply remove_absent. }
  repeat split.
  - intros H; rewrite H; reflexivity.
  - intros H; rewrite H; reflexivity.
  - intros H; rewrite H; reflexivity.
  - intros s H N1 N2 N3. rewrite H.
    apply String.eqb_neq in N1, N2, N3. rewrite N1, N2, N3. reflexivity.
  - intros m H; rewrite H; reflexivity.
  - intros v H Hn Hs He. rewrite H.
    destruct v; try discriminate; reflexivity.
  - intros H; rewrite H; reflexivity.
  - intros H; rewrite H; reflexivity.
Qed.

Lemma pop_convert_mode_cases_witness :
  snd (_pop_convert_mode [("_convert_", NStr "fast"); ("x", NInt 1)])
  = Raise (Inst_ConvertValue "fast")
  /\ snd (_pop_convert_mode [("x", NInt 1); ("_convert_", NBool true)])
     = Raise Inst_ConvertType
  /\ snd (_pop_convert_mode [("_convert_", NEnum PARTIAL)]) = Return PARTIAL.
Proof.
  split; [|split].
  - apply (pop_convert_mode_cases [("_convert_", NStr "fast"); ("x", NInt 1)]);
      [reflexivity | discriminate | discriminate | discriminate].
  - apply (pop_convert_mode_cases [("x", NInt 1); ("_convert_", NBool true)]
             ) with (v := NBool true); reflexivity.
  - apply (pop_convert_mode_cases [("_convert_", NEnum PARTIAL)]). reflexivity.
Defined.

(** ** Target extraction *)

Lemma pop_target_spec (d : dict) :
  pop_target d = (remove "_target_" d, target_of d).
Proof.
  unfold pop_target, target_of.
  destruct (lookup "_target_" d) as [v|] eqn:E.
  - destruct v; reflexivity.
  - now rewrite remove_absent.
Qed.

Section TargetFacts.

Variable world : Type.
Variable import_module : world -> string -> world * (string + pyobj).
Variable getattr : world -> pyobj -> string -> option pyobj.
Variable builtins : pyobj.


End TargetFacts.


(** C6 as stated fails at a [_target_] bound to None. Present in the
    overlay next to a target of the node, it does not go before the
    node's: the node's target is resolved. Alone, it is a target value
    that is no string, type or callable, and the call raises "Unable to
    determine target", not "Unsupported target type". *)
Lemma get_target_type_null_target_is_no_target :
  contains "_target_" [("_target_", NNone)] = true
  /\ contains "_target_" [("_target_", NStr "pkg.Foo")] = true
  /\ snd (_get_target_type toy_import toy_getattr toy_builtins
            [("_target_", NStr "pkg.Foo")] [("_target_", NNone)] toy_start)
     = Return toy_Foo
  /\ snd (toy_locate toy_start "pkg.Foo") = Return toy_Foo
  /\ snd (_get_target_type toy_import toy_getattr toy_builtins
            [("x", NInt 1)] [("_target_", NNone)] toy_start)
     = Raise Inst_NoTarget
  /\ snd (_get_target_type toy_import toy_getattr toy_builtins
            [("x", NInt 1)] [("_target_", NNone)] toy_start)
     <> Raise Inst_UnsupportedTarget.
Proof. repeat split. discriminate. Qed.

(** ** Loops *)

Lemma bind_return (A B : Type) (m : M A) (k : A -> M B) (b : B) :
  bind m k = Some (Return b) ->
  exists a, m = Some (Return a) /\ k a = Some (Return b).
Proof.
  unfold bind. destruct m as [[a|e]|]; intros H; try discriminate.
  exists a. split; [reflexivity|exact H].
Qed.

(** A loop that ran to its end ran its body to the end on every
    element, in order. *)
Lemma for_each_return (A B : Type) (body : A -> M (A * B)) (xs : list A)
    (xs' : list A) (outs : list B) :
  for_each body xs = Some (Return (xs', outs)) ->
  exists ps,
    Forall2 (fun x p => body x = Some (Return p)) xs ps
    /\ xs' = map fst ps /\ outs = map snd ps.
Proof.
  revert xs' outs. induction xs as [|x xs IH]; intros xs' outs H.
  - cbn in H. injection H as <- <-. exists []. repeat split. constructor.
  - cbn [for_each] in H.
    apply bind_return in H. destruct H as (p & Hp & H).
    apply bind_return in H. destruct H as ([ys os] & Hrest & H).
    cbn in H. injection H as <- <-.
    destruct (IH ys os Hrest) as (ps & HF & -> & ->).
    exists (p :: ps). repeat split. constructor; assumption.
Qed.


Lemma for_each_copy (A : Type) (xs : list A) :
  for_each (fun x => ret (x, x)) xs = ret (xs, xs).
Proof.
  induction xs as [|x xs IH]; [reflexivity|].
  cbn [for_each]. rewrite IH. reflexivity.
Qed.

Lemma Forall2_map_right (A B C : Type) (R : A -> B -> Prop) (R' : A -> C -> Prop)
    (f : B -> C) (xs : list A) (ps : list B) :
  (forall x p, R x p -> R' x (f p)) ->
  Forall2 R xs ps -> Forall2 R' xs (map f ps).
Proof.
  intros HR. induction 1; cbn [map]; constructor; auto.
Qed.

Lemma bind_some (A B : Type) (m : M A) (k : A -> M B) :
  m <> None -> (forall a, m = Some (Return a) -> k a <> None) -> bind m k <> None.
Proof.
  unfold bind. destruct m as [[a|e]|]; intros Hm Hk; [auto|discriminate|congruence].
Qed.

Lemma for_each_some (A B : Type) (body : A -> M (A * B)) (xs : list A) :
  Forall (fun x => body x <> None) xs -> for_each body xs <> None.
Proof.
  induction 1 as [|x xs Hx _ IH]; [discriminate|].
  cbn [for_each]. apply bind_some; [exact Hx|].
  intros p _. apply bind_some; [exact IH|]. discriminate.
Qed.

Lemma depth_of_member (A : Type) (f : A -> nat) (l : list A) (n : nat) :
  list_max (map f l) <= n -> Forall (fun x => f x <= n) l.
Proof.
  intros H. apply list_max_le in H. rewrite Forall_map in H. exact H.
Qed.

Lemma dict_depth_cons (k : string) (v : node) (d : dict) :
  dict_depth ((k, v) :: d) = Nat.max (node_depth v) (dict_depth d).
Proof. reflexivity. Qed.

Lemma dict_depth_remove (k : string) (d : dict) :
  dict_depth (remove k d) <= dict_depth d.
Proof.
  induction d as [|[k' v] d IH]; [reflexivity|].
  cbn [remove]. destruct (k' =? k); rewrite ?dict_depth_cons; lia.
Qed.

(** ** The instantiation engine *)

Section EngineFacts.

Variable type_str : node -> outcome string.
Variable instantiate : node -> outcome node.
Variable merge_with : dict -> dict -> dict.
Variable fresh_object_type : object_type.

(** C7: with the recursion flag false every field of the merged node
    is handed back as it is, under any collaborator: a nested mapping
    with its own [_target_] is still that mapping, and no constructor
    is involved. *)
Theorem get_kwargs_shallow_copies (fuel : nat) (tag : object_type)
    (items kwargs items1 kwargs1 : dict) (root : bool) :
  _is_recursive type_str items kwargs = (items1, kwargs1, Return false) ->
  let merged := merge_with items1 kwargs1 in
  exists out,
    _get_kwargs type_str instantiate merge_with fresh_object_type (S fuel)
      (NDict tag items) root kwargs
    = Some (Return (NDict tag merged,
                    NDict (if root then fresh_object_type else tag) out))
    /\ out = merged
    /\ (forall k v, In (k, v) merged -> _is_target v = true ->
          In (k, v) out
          /\ exists t its, v = NDict t its /\ contains "_target_" its = true).
Proof.
  intros Hrec merged. exists merged. split; [|split].
  - cbn [_get_kwargs]. rewrite Hrec.
    fold merged. rewrite for_each_copy. reflexivity.
  - reflexivity.
  - intros k v Hin Ht. split; [exact Hin|].
    destruct v; try discriminate. eauto.
Qed.

Lemma call_instantiate_return (v c o : node) :
  call_instantiate instantiate v = Some (Return (c, o)) ->
  c = v /\ instantiate v = Return o.
Proof.
  unfold call_instantiate. destruct (instantiate v) as [o'|e]; [|discriminate].
  cbn. intros H. injection H as <- <-. split; reflexivity.
Qed.

Lemma get_kwargs_dict_shape (fuel : nat) (tag : object_type) (items kwargs : dict)
    (root : bool) (c r : node) :
  _get_kwargs type_str instantiate merge_with fresh_object_type fuel
    (NDict tag items) root kwargs = Some (Return (c, r)) ->
  exists its' outs,
    c = NDict tag its'
    /\ r = NDict (if root then fresh_object_type else tag) outs.
Proof.
  destruct fuel as [|fuel]; [discriminate|].
  cbn [_get_kwargs].
  destruct (_is_recursive type_str items kwargs) as [[items1 kwargs1] [recursive|e]];
    [|discriminate].
  intros H. apply bind_return in H. destruct H as ([its' outs] & _ & H).
  cbn in H. injection H as <- <-. eauto.
Qed.

Lemma get_kwargs_list_shape (fuel : nat) (elems : list node) (kwargs : dict)
    (root : bool) (c r : node) :
  _get_kwargs type_str instantiate merge_with fresh_object_type fuel
    (NList elems) root kwargs = Some (Return (c, r)) ->
  exists elems' outs, c = NList elems' /\ r = NList outs.
Proof.
  destruct fuel as [|fuel]; [discriminate|].
  cbn [_get_kwargs].
  intros H. apply bind_return in H. destruct H as ([its' outs] & _ & H).
  cbn in H. injection H as <- <-. eauto.
Qed.

Lemma self_get_kwargs_keeps_shape (fuel : nat) :
  self_keeps_shape
    (fun x => _get_kwargs type_str instantiate merge_with fresh_object_type fuel x false []).
Proof.
  split.
  - intros t its c r H. apply get_kwargs_dict_shape in H. exact H.
  - intros elems c r H. apply get_kwargs_list_shape in H. exact H.
Qed.

Section Bodies.

Variable self : node -> M (node * node).
Hypothesis Hself : self_keeps_shape self.

Lemma is_target_is_dict (v : node) : _is_target v = true -> is_dict v = true.
Proof. destruct v; try discriminate; reflexivity. Qed.

Lemma field_left_refl (v : node) : field_left v v.
Proof.
  unfold field_left. split; [reflexivity|]. split.
  - intros t its E. eauto.
  - intros elems E. eauto.
Qed.

(** What a container element or item goes through below a field:
    [x'] is what is left of [x], [o] what is made of it. *)
Lemma nested_value_return (x x' o : node) :
  (if _is_target x then call_instantiate instantiate x
   else if is_config x then
          xr <- self x ;; ret (fst xr, set_object_type (get_object_type x) (snd xr))
        else ret (x, x)) = Some (Return (x', o)) ->
  keeps_tag x o /\ field_left x x'.
Proof.
  intros H.
  destruct (_is_target x) eqn:Ht.
  { apply call_instantiate_return in H. destruct H as [-> _].
    split; [|apply field_left_refl].
    unfold keeps_tag. destruct x; try exact I. intros Hf. congruence. }
  destruct x as [| | | | | |t its|elems];
    try (cbn in H; injection H as <- <-; split; [exact I|apply field_left_refl]).
  - cbn [is_config is_dict is_list orb] in H.
    apply bind_return in H. destruct H as ([c r] & Hs & H).
    cbn in H. injection H as <- <-.
    destruct (proj1 Hself _ _ _ _ Hs) as (its' & outs & -> & ->).
    split.
    + intros _. exists outs. reflexivity.
    + unfold field_left. split; [|split].
      * intros Hc. cbn [is_config is_dict is_list orb andb] in Hc.
        rewrite Ht in Hc. discriminate.
      * intros t0 its0 E. injection E as <- <-. eauto.
      * intros elems E. discriminate.
  - cbn [is_config is_dict is_list orb] in H.
    apply bind_return in H. destruct H as ([c r] & Hs & H).
    cbn in H. injection H as <- <-.
    destruct (proj2 Hself _ _ _ Hs) as (elems' & outs & -> & ->).
    split; [exact I|].
    unfold field_left. split; [|split].
    + intros Hc. cbn in Hc. discriminate.
    + intros t0 its0 E. discriminate.
    + intros elems0 E. eauto.
Qed.

Lemma inner_list_elem_return (x x' o : node) :
  inner_list_elem instantiate self x = Some (Return (x', o)) ->
  keeps_tag x o /\ field_left x x'.
Proof. unfold inner_list_elem. apply nested_value_return. Qed.

Lemma inner_dict_item_return (kv kv' ko : string * node) :
  inner_dict_item instantiate self kv = Some (Return (kv', ko)) ->
  fst kv' = fst kv /\ fst ko = fst kv
  /\ keeps_tag (snd kv) (snd ko) /\ field_left (snd kv) (snd kv').
Proof.
  destruct kv as [key value]. unfold inner_dict_item. cbn [fst snd]. intros H.
  assert (Hn : exists x' o,
             (if _is_target value then call_instantiate instantiate value
              else if is_config value then
                     xr <- self value ;;
                     ret (fst xr, set_object_type (get_object_type value) (snd xr))
                   else ret (value, value)) = Some (Return (x', o))
             /\ kv' = (key, x') /\ ko = (key, o)).
  { destruct (_is_target value).
    - apply bind_return in H. destruct H as ([c r] & Hc & H).
      cbn in H. injection H as <- <-. eauto.
    - destruct (is_config value) eqn:Hcfg.
      + apply bind_return in H. destruct H as ([c r] & Hs & H).
        cbn in H. injection H as <- <-. rewrite Hs. cbn [bind fst snd].
        exists c, r. repeat split.
        destruct value; try discriminate.
        * destruct (proj1 Hself _ _ _ _ Hs) as (its' & outs & -> & ->). reflexivity.
        * destruct (proj2 Hself _ _ _ Hs) as (elems' & outs & -> & ->). reflexivity.
      + cbn in H. injection H as <- <-. exists value, value. repeat split. }
  destruct Hn as (x' & o & Hv & -> & ->). cbn [fst snd].
  destruct (nested_value_return _ Hv) as [Hk Hl]. auto.
Qed.

Lemma field_processed_unchanged (v : node) :
  _is_target v = false -> field_processed instantiate v v.
Proof.
  intros Ht. unfold field_processed. split; [reflexivity|]. split; [|reflexivity].
  intros Ht'. congruence.
Qed.

Lemma field_processed_container (v o : node) :
  _is_target v = false -> is_config v = true -> field_processed instantiate v o.
Proof.
  intros Ht Hc. unfold field_processed, is_scalar. split; [|split].
  - intros Hn. destruct v; discriminate.
  - intros Ht'. congruence.
  - intros Hs. rewrite Hc in Hs. discriminate.
Qed.

(** One field of the merged node in a recursive walk. *)
Lemma field_item_return (kv kv' ko : string * node) :
  field_item instantiate self kv = Some (Return (kv', ko)) ->
  fst kv' = fst kv /\ fst ko = fst kv
  /\ field_processed instantiate (snd kv) (snd ko)
  /\ field_keeps_tags true (snd kv) (snd ko)
  /\ field_left (snd kv) (snd kv').
Proof.
  destruct kv as [k v]. unfold field_item. cbn [fst snd]. intros H.
  destruct (is_none v) eqn:Hnone.
  { cbn in H. injection H as <- <-. cbn [fst snd].
    destruct v; try discriminate.
    split; [reflexivity|]. split; [reflexivity|].
    split; [apply field_processed_unchanged; reflexivity|].
    split; [exact I|apply field_left_refl]. }
  destruct (_is_target v) eqn:Ht.
  { apply bind_return in H. destruct H as ([c r] & Hc & H).
    cbn in H. injection H as <- <-.
    apply call_instantiate_return in Hc. destruct Hc as [-> Hc].
    cbn [fst snd].
    split; [reflexivity|]. split; [reflexivity|].
    split; [|split; [|apply field_left_refl]].
    - unfold field_processed, is_scalar. split; [|split].
      + intros Hn. congruence.
      + intros _. exact Hc.
      + intros Hs. apply is_target_is_dict in Ht. unfold is_config in Hs.
        rewrite Ht in Hs. discriminate.
    - unfold field_keeps_tags. destruct v; try exact I; try discriminate.
      intros Hf. congruence. }
  destruct v as [| | | | | |t its|elems];
    try (cbn in H; injection H as <- <-; cbn [fst snd];
         split; [reflexivity|]; split; [reflexivity|];
         split; [apply field_processed_unchanged; reflexivity|];
         split; [exact I|apply field_left_refl]).
  - apply bind_return in H. destruct H as ([its' outs] & Hloop & H).
    cbn in H. injection H as <- <-. cbn [fst snd].
    apply for_each_return in Hloop. destruct Hloop as (ps & HF & -> & ->).
    split; [reflexivity|]. split; [reflexivity|].
    split; [apply field_processed_container; [exact Ht|reflexivity]|].
    split.
    + unfold field_keeps_tags. intros _. exists (map snd ps). split; [reflexivity|].
      apply Forall2_map_right
        with (R := fun x p => inner_dict_item instantiate self x = Some (Return p));
        [|exact HF].
      intros x [p1 p2] Hx. apply inner_dict_item_return in Hx. tauto.
    + unfold field_left. split; [|split].
      * intros Hc. cbn [is_config is_dict is_list orb andb] in Hc.
        rewrite Ht in Hc. discriminate.
      * intros t0 its0 E. injection E as <- <-. eauto.
      * intros elems E. discriminate.
  - apply bind_return in H. destruct H as ([its' outs] & Hloop & H).
    cbn in H. injection H as <- <-. cbn [fst snd].
    apply for_each_return in Hloop. destruct Hloop as (ps & HF & -> & ->).
    split; [reflexivity|]. split; [reflexivity|].
    split; [apply field_processed_container; reflexivity|].
    split.
    + unfold field_keeps_tags. exists (map snd ps). split; [reflexivity|].
      apply Forall2_map_right
        with (R := fun x p => inner_list_elem instantiate self x = Some (Return p));
        [|exact HF].
      intros x [p1 p2] Hx. apply inner_list_elem_return in Hx. tauto.
    + unfold field_left. split; [|split].
      * intros Hc. cbn in Hc. discriminate.
      * intros t0 its0 E. discriminate.
      * intros elems0 E. eauto.
Qed.

End Bodies.

Lemma is_recursive_return (items kwargs items1 kwargs1 : dict) (b : bool) :
  _is_recursive type_str items kwargs = (items1, kwargs1, Return b) ->
  items1 = remove "_recursive_" items /\ kwargs1 = remove "_recursive_" kwargs.
Proof.
  unfold _is_recursive.
  pose proof (is_rec_state type_str items) as Hi.
  pose proof (is_rec_state type_str kwargs) as Hk.
  destruct (_is_rec type_str kwargs) as [k' [kr|e]]; [|discriminate].
  destruct (_is_rec type_str items) as [i' [ir|e]]; [|discriminate].
  cbn [fst] in Hi, Hk. subst i' k'.
  destruct kr, ir; intros H; injection H as <- <- _; split; reflexivity.
Qed.

(** A successful call on a mapping, field by field: [left] is what the
    caller's node holds afterwards, [out] what the returned node holds. *)
Lemma get_kwargs_dict_return (fuel : nat) (tag : object_type) (items kwargs : dict)
    (root : bool) (config' result : node) :
  _get_kwargs type_str instantiate merge_with fresh_object_type fuel
    (NDict tag items) root kwargs = Some (Return (config', result)) ->
  exists recursive left out,
    _is_recursive type_str items kwargs
    = (remove "_recursive_" items, remove "_recursive_" kwargs, Return recursive)
    /\ config' = NDict tag left
    /\ result = NDict (if root then fresh_object_type else tag) out
    /\ Forall2 (fun kv kv' => fst kv' = fst kv /\ field_left (snd kv) (snd kv'))
         (merge_with (remove "_recursive_" items) (remove "_recursive_" kwargs)) left
    /\ Forall2 (fun kv ko => fst ko = fst kv
                             /\ (recursive = true ->
                                 field_processed instantiate (snd kv) (snd ko))
                             /\ field_keeps_tags recursive (snd kv) (snd ko))
         (merge_with (remove "_recursive_" items) (remove "_recursive_" kwargs)) out
    /\ (recursive = false ->
        left = merge_with (remove "_recursive_" items) (remove "_recursive_" kwargs)
        /\ out = left).
Proof.
  destruct fuel as [|fuel]; [discriminate|].
  cbn [_get_kwargs].
  destruct (_is_recursive type_str items kwargs) as [[items1 kwargs1] [recursive|e]] eqn:Hrec;
    [|discriminate].
  destruct (is_recursive_return _ _ Hrec) as [-> ->].
  intros H. apply bind_return in H. destruct H as ([left out] & Hloop & H).
  cbn in H. injection H as <- <-.
  exists recursive, left, out. split; [reflexivity|]. split; [reflexivity|].
  split; [reflexivity|].
  destruct recursive.
  - apply for_each_return in Hloop. destruct Hloop as (ps & HF & -> & ->).
    pose proof (self_get_kwargs_keeps_shape fuel) as Hself.
    split; [|split; [|discriminate]].
    + apply Forall2_map_right with (2 := HF).
      intros x [p1 p2] Hx. apply (field_item_return Hself) in Hx. tauto.
    + apply Forall2_map_right with (2 := HF).
      intros x [p1 p2] Hx. apply (field_item_return Hself) in Hx. tauto.
  - rewrite for_each_copy in Hloop. injection Hloop as <- <-.
    split; [|split; [|auto]].
    + induction (merge_with _ _) as [|kv l IH]; constructor; [|exact IH].
      split; [reflexivity|]. unfold field_left. repeat split; eauto.
    + induction (merge_with _ _) as [|kv l IH]; constructor; [|exact IH].
      split; [reflexivity|]. split; [discriminate|reflexivity].
Qed.

Lemma field_item_simple_returns (self : node -> M (node * node)) (kv : string * node) :
  is_none (snd kv) = true
  \/ is_scalar (snd kv) = true
  \/ (_is_target (snd kv) = true /\ exists o, instantiate (snd kv) = Return o) ->
  exists p, field_item instantiate self kv = Some (Return p).
Proof.
  destruct kv as [k v]. cbn [snd]. unfold field_item.
  intros [Hn | [Hs | [Ht [o Ho]]]].
  - rewrite Hn. eexists. reflexivity.
  - destruct v; try discriminate; cbn; eexists; reflexivity.
  - rewrite Ht. destruct (is_none v); [eexists; reflexivity|].
    unfold call_instantiate. rewrite Ho. cbn. eexists. reflexivity.
Qed.





(** C2, as the code has it: the call works on the caller's node
    itself. After a call that returns, the node is the same mapping
    under the same tag, holding field by field the merge of the node
    without [_recursive_] and the overlay without [_recursive_]; only
    a field that is an untargeted container can differ from the merged
    one (the container is still a mapping under its tag, or still a
    sequence), and in a shallow walk none does. *)
Theorem get_kwargs_leaves_merged_node (fuel : nat) (tag : object_type)
    (items kwargs : dict) (root : bool) (config' result : node) :
  _get_kwargs type_str instantiate merge_with fresh_object_type fuel
    (NDict tag items) root kwargs = Some (Return (config', result)) ->
  let merged := merge_with (remove "_recursive_" items) (remove "_recursive_" kwargs) in
  exists left,
    config' = NDict tag left
    /\ keys left = keys merged
    /\ Forall2 (fun kv kv' => fst kv' = fst kv /\ field_left (snd kv) (snd kv'))
         merged left
    /\ (forall i1 k1, _is_recursive type_str items kwargs = (i1, k1, Return false) ->
          left = merged).
Proof.
  intros Hcall merged.
  apply get_kwargs_dict_return in Hcall.
  destruct Hcall as (recursive & left & out & Hrec & -> & _ & HF & _ & Hsh).
  fold merged in HF, Hsh.
  exists left. split; [reflexivity|]. split; [|split; [exact HF|]].
  - unfold keys. clearbody merged. clear -HF.
    induction HF as [|kv ko l l' (E & _) _ IH]; [reflexivity|].
    cbn [map]. rewrite E, IH. reflexivity.
  - intros i1 k1 Hrec'. rewrite Hrec in Hrec'. injection Hrec' as _ _ ->.
    apply Hsh. reflexivity.
Qed.

(** C9: a call with [root=False] on a mapping returns a mapping under
    the tag of the node it was given, in a recursive and in a shallow
    walk; a call with [root=True] returns it under the tag of a fresh
    container, whatever the tag of the node. Below the returned node,
    an untargeted mapping that is a field, an item of a mapping field
    or an element of a sequence field comes out as a mapping under its
    own tag (in a shallow walk the field is the very value). A call
    on a sequence returns every element that is a mapping as a mapping
    under the tag of the element. *)
Theorem get_kwargs_object_type (fuel : nat) (config : node) (kwargs : dict)
    (root : bool) (config' result : node) :
  _get_kwargs type_str instantiate merge_with fresh_object_type fuel
    config root kwargs = Some (Return (config', result)) ->
  match config with
  | NDict tag items =>
      get_object_type result = (if root then fresh_object_type else tag)
      /\ exists recursive out,
           snd (_is_recursive type_str items kwargs) = Return recursive
           /\ result = NDict (if root then fresh_object_type else tag) out
           /\ Forall2 (fun kv ko => fst ko = fst kv
                                    /\ field_keeps_tags recursive (snd kv) (snd ko))
                (merge_with (remove "_recursive_" items) (remove "_recursive_" kwargs))
                out
  | NList elems =>
      exists outs,
        result = NList outs
        /\ Forall2 (fun x o => forall t its, x = NDict t its -> exists z, o = NDict t z)
             elems outs
  | _ => False
  end.
Proof.
  intros Hcall.
  destruct config as [| | | | | |tag items|elems];
    try (destruct fuel; discriminate).
  - apply get_kwargs_dict_return in Hcall.
    destruct Hcall as (recursive & left & out & Hrec & _ & -> & _ & HF & _).
    split; [reflexivity|].
    exists recursive, out. rewrite Hrec. split; [reflexivity|]. split; [reflexivity|].
    induction HF as [|kv ko l l' (E & _ & T) _ IH]; constructor; auto.
  - destruct fuel as [|fuel]; [discriminate|].
    cbn [_get_kwargs] in Hcall.
    apply bind_return in Hcall. destruct Hcall as ([left outs] & Hloop & H).
    cbn in H. injection H as <- <-.
    apply for_each_return in Hloop. destruct Hloop as (ps & HF & -> & ->).
    exists (map snd ps). split; [reflexivity|].
    apply Forall2_map_right with (2 := HF).
    intros x [c r] Hx t its ->. cbn in Hx.
    apply (proj1 (self_get_kwargs_keeps_shape fuel)) in Hx.
    destruct Hx as (its' & outs & _ & ->). cbn [snd]. eauto.
Qed.

(** *** The recursion budget *)

Section Budget.

(** A merge nests no deeper than what it merges. *)
Hypothesis merge_depth : forall a b,
  dict_depth (merge_with a b) <= Nat.max (dict_depth a) (dict_depth b).

Lemma config_has_depth (v : node) : is_config v = true -> 1 <= node_depth v.
Proof. destruct v; try discriminate; cbn; lia. Qed.

(** With a budget of the depth of the node and more than the depth
    of the overlay, the call returns or raises. *)
Lemma get_kwargs_enough_fuel (fuel : nat) :
  forall config root kwargs,
    1 <= fuel -> node_depth config <= fuel -> dict_depth kwargs < fuel ->
    _get_kwargs type_str instantiate merge_with fresh_object_type fuel config root kwargs
    <> None.
Proof.
  induction fuel as [|fuel IH]; intros config root kwargs H1 Hd Hk; [lia|].
  assert (Hself : forall x, node_depth x <= fuel ->
            is_config x = true ->
            _get_kwargs type_str instantiate merge_with fresh_object_type fuel x false []
            <> None).
  { intros x Hx Hc. pose proof (config_has_depth x Hc).
    apply IH; [lia|exact Hx|cbn; lia]. }
  assert (Hcall : forall v, call_instantiate instantiate v <> None).
  { intros v. unfold call_instantiate. destruct (instantiate v); discriminate. }
  cbn [_get_kwargs].
  destruct config as [| | | | | |tag items|elems]; try discriminate.
  - destruct (_is_recursive type_str items kwargs) as [[items1 kwargs1] [recursive|e]] eqn:Hrec;
      [|discriminate].
    destruct (is_recursive_return _ _ Hrec) as [-> ->].
    apply bind_some; [|discriminate].
    destruct recursive; [|rewrite for_each_copy; discriminate].
    apply for_each_some.
    assert (Hm : dict_depth (merge_with (remove "_recursive_" items)
                               (remove "_recursive_" kwargs)) <= fuel).
    { pose proof (merge_depth (remove "_recursive_" items)
                    (remove "_recursive_" kwargs)).
      pose proof (dict_depth_remove "_recursive_" items).
      pose proof (dict_depth_remove "_recursive_" kwargs).
      cbn [node_depth] in Hd. fold (dict_depth items) in Hd. lia. }
    apply depth_of_member in Hm.
    eapply Forall_impl; [|exact Hm].
    intros [k v] Hv. cbn [snd] in Hv. unfold field_item.
    destruct (is_none v); [discriminate|].
    destruct (_is_target v); [apply bind_some; [apply Hcall|discriminate]|].
    destruct v as [| | | | | |t its|es]; try discriminate.
    + apply bind_some; [|discriminate]. apply for_each_some.
      cbn [node_depth] in Hv.
      assert (Hits : list_max (map (fun kv => node_depth (snd kv)) its) <= fuel) by lia.
      apply depth_of_member in Hits.
      eapply Forall_impl; [|exact Hits].
      intros [key value] Hval. cbn [snd] in Hval. unfold inner_dict_item.
      destruct (_is_target value); [apply bind_some; [apply Hcall|discriminate]|].
      destruct (is_config value) eqn:Hc; [|discriminate].
      apply bind_some; [apply Hself; assumption|discriminate].
    + apply bind_some; [|discriminate]. apply for_each_some.
      cbn [node_depth] in Hv.
      assert (Hes : list_max (map node_depth es) <= fuel) by lia.
      apply depth_of_member in Hes.
      eapply Forall_impl; [|exact Hes].
      intros x Hx. unfold inner_list_elem.
      destruct (_is_target x); [apply Hcall|].
      destruct (is_config x) eqn:Hc; [|discriminate].
      apply bind_some; [apply Hself; assumption|discriminate].
  - apply bind_some; [|discriminate]. apply for_each_some.
    cbn [node_depth] in Hd.
    assert (Hes : list_max (map node_depth elems) <= fuel) by lia.
    apply depth_of_member in Hes.
    eapply Forall_impl; [|exact Hes].
    intros x Hx. cbn beta.
    destruct (is_config x) eqn:Hc; [|discriminate].
    apply Hself; assumption.
Qed.

End Budget.

End EngineFacts.


(** ** The engine on the example node *)

Example example_recursive_walk :
  toy_get_kwargs 2 example_node true []
  = Some (Return
      (NDict (Some "FooConf")
         [("_target_", NStr "pkgA.Foo"); ("a", example_a);
          ("b", NList [NInt 1; NInt 2]); ("n", NNone);
          ("c", NDict (Some "Plain")
                  [("y", NNone); ("z", NDict (Some "Inner") [("q", example_a)])]);
          ("l", NList [NDict (Some "Elem") [("w", NInt 3)]; NInt 4])],
       NDict (Some "dict")
         [("_target_", NStr "pkgA.Foo"); ("a", built_Bar);
          ("b", NList [NInt 1; NInt 2]); ("n", NNone);
          ("c", NDict (Some "Plain")
                  [("y", NNone); ("z", NDict (Some "Inner") [("q", example_a)])]);
          ("l", NList [NDict (Some "Elem") [("w", NInt 3)]; NInt 4])])).
Proof. reflexivity. Qed.

Lemma get_kwargs_shallow_copies_witness :
  exists out,
    toy_get_kwargs 1 example_node true [("_recursive_", NBool false)]
    = Some (Return (NDict (Some "FooConf") example_items, NDict (Some "dict") out))
    /\ out = example_items
    /\ (forall k v, In (k, v) example_items -> _is_target v = true ->
          In (k, v) out
          /\ exists t its, v = NDict t its /\ contains "_target_" its = true).
Proof.
  exact (@get_kwargs_shallow_copies toy_type_str toy_instantiate merge_with_spec (Some "dict")
           0 (Some "FooConf") example_items [("_recursive_", NBool false)]
           example_items [] true eq_refl).
Defined.

(** C2 as stated fails: a node that declares [_recursive_] does not
    hold the key after the call, with an empty overlay already; with an
    overlay it holds the overlay's values as well. *)
Lemma get_kwargs_changes_the_caller_node :
  let node := NDict (Some "Cfg") [("_recursive_", NBool false); ("a", NInt 1)] in
  (exists result,
      toy_get_kwargs 1 node true []
      = Some (Return (NDict (Some "Cfg") [("a", NInt 1)], result)))
  /\ NDict (Some "Cfg") [("a", NInt 1)] <> node
  /\ (exists result,
        toy_get_kwargs 1 node true [("a", NInt 2)]
        = Some (Return (NDict (Some "Cfg") [("a", NInt 2)], result))).
Proof.
  cbv zeta. split; [|split].
  - eexists. reflexivity.
  - discriminate.
  - eexists. reflexivity.
Qed.


(** Below a field that is a mapping or a sequence, the targets are
    constructed too. *)
Example recursive_walk_of_nested_fields :
  toy_get_kwargs 2 (NDict (Some "dict") plain_nested_items) true []
  = Some (Return
      (NDict (Some "dict") plain_nested_items,
       NDict (Some "dict")
         [("c", NDict (Some "dict") [("q", built_Bar); ("y", NInt 2)]);
          ("l", NList [built_Bar; NDict (Some "dict") [("w", NInt 3)]; NInt 4])])).
Proof. reflexivity. Qed.

(** The three kinds of field of C1 on a node that has nothing else. *)
Example recursive_walk_of_simple_fields :
  toy_get_kwargs 1
    (NDict None [("a", example_a); ("n", NNone); ("s", NStr "text"); ("i", NInt 7)])
    true []
  = Some (Return
      (NDict None [("a", example_a); ("n", NNone); ("s", NStr "text"); ("i", NInt 7)],
       NDict (Some "dict")
         [("a", built_Bar); ("n", NNone); ("s", NStr "text"); ("i", NInt 7)])).
Proof. reflexivity. Qed.

Lemma get_kwargs_leaves_merged_node_witness :
  exists left,
    NDict (Some "Cfg") [("a", NInt 2); ("b", NStr "kept")] = NDict (Some "Cfg") left
    /\ keys left
       = keys (merge_with_spec
                 (remove "_recursive_"
                    [("_recursive_", NBool false); ("a", NInt 1); ("b", NStr "kept")])
                 (remove "_recursive_" [("a", NInt 2)]))
    /\ Forall2 (fun kv kv' => fst kv' = fst kv /\ field_left (snd kv) (snd kv'))
         (merge_with_spec
            (remove "_recursive_"
               [("_recursive_", NBool false); ("a", NInt 1); ("b", NStr "kept")])
            (remove "_recursive_" [("a", NInt 2)]))
         left
    /\ (forall i1 k1,
          _is_recursive toy_type_str [("_recursive_", NBool false); ("a", NInt 1); ("b", NStr "kept")]
            [("a", NInt 2)] = (i1, k1, Return false) ->
          left = merge_with_spec
                   (remove "_recursive_"
                      [("_recursive_", NBool false); ("a", NInt 1); ("b", NStr "kept")])
                   (remove "_recursive_" [("a", NInt 2)])).
Proof.
  exact (@get_kwargs_leaves_merged_node toy_type_str toy_instantiate merge_with_spec (Some "dict")
           1 (Some "Cfg")
           [("_recursive_", NBool false); ("a", NInt 1); ("b", NStr "kept")]
           [("a", NInt 2)] true
           (NDict (Some "Cfg") [("a", NInt 2); ("b", NStr "kept")])
           (NDict (Some "dict") [("a", NInt 2); ("b", NStr "kept")])
           eq_refl).
Defined.

Lemma get_kwargs_object_type_witness :
  get_object_type
    (NDict (Some "Inner") [("q", example_a)]) = Some "Inner"
  /\ exists recursive out,
       snd (_is_recursive toy_type_str [("_recursive_", NBool false); ("q", example_a)] [])
       = Return recursive
       /\ NDict (Some "Inner") [("q", example_a)] = NDict (Some "Inner") out
       /\ Forall2 (fun kv ko => fst ko = fst kv
                                /\ field_keeps_tags recursive (snd kv) (snd ko))
            (merge_with_spec
               (remove "_recursive_" [("_recursive_", NBool false); ("q", example_a)])
               (remove "_recursive_" []))
            out.
Proof.
  exact (@get_kwargs_object_type toy_type_str toy_instantiate merge_with_spec (Some "dict")
           1 (NDict (Some "Inner") [("_recursive_", NBool false); ("q", example_a)])
           [] false
           (NDict (Some "Inner") [("q", example_a)])
           (NDict (Some "Inner") [("q", example_a)])
           eq_refl).
Defined.

(** The root of the example comes back under the tag of a fresh
    container, not under its own. *)
Example root_tag_is_not_restored :
  get_object_type example_node = Some "FooConf"
  /\ (forall c r, toy_get_kwargs 2 example_node true [] = Some (Return (c, r)) ->
        get_object_type r = Some "dict")
  /\ (forall c r, toy_get_kwargs 2 example_node false [] = Some (Return (c, r)) ->
        get_object_type r = Some "FooConf").
Proof.
  split; [reflexivity|]. split; intros c r H; vm_compute in H;
    injection H as _ <-; reflexivity.
Qed.

Lemma depth_of_item (k : string) (v : node) (d : dict) :
  In (k, v) d -> node_depth v <= dict_depth d.
Proof.
  induction d as [|[k' v'] d IH]; [contradiction|].
  rewrite dict_depth_cons. intros [E|Hin].
  - injection E as _ ->. lia.
  - specialize (IH Hin). lia.
Qed.

Lemma lookup_In (k : string) (v : node) (d : dict) :
  lookup k d = Some v -> In (k, v) d.
Proof.
  induction d as [|[k' v'] d IH]; [discriminate|].
  cbn [lookup]. destruct (k' =? k) eqn:E.
  - apply String.eqb_eq in E. subst k'. intros H. injection H as ->. left. reflexivity.
  - intros H. right. apply IH. exact H.
Qed.

Lemma merge_with_spec_depth (a b : dict) :
  dict_depth (merge_with_spec a b) <= Nat.max (dict_depth a) (dict_depth b).
Proof.
  unfold merge_with_spec. unfold dict_depth at 1.
  apply list_max_le. rewrite Forall_map. apply Forall_app. split.
  - rewrite Forall_map. apply Forall_forall. intros [k v] Hin. cbn [fst].
    destruct (lookup k b) as [w|] eqn:Hl; cbn [snd].
    + apply lookup_In in Hl. apply depth_of_item in Hl. lia.
    + apply depth_of_item in Hin. lia.
  - apply Forall_forall. intros [k v] Hin. apply filter_In in Hin.
    destruct Hin as [Hin _]. cbn [snd]. apply depth_of_item in Hin. lia.
Qed.

(** On the small interpreter a budget of the depth of the node and more
    than the depth of the overlay is enough for the call to return or
    raise. *)
Lemma toy_get_kwargs_enough_fuel (fuel : nat) (config : node) (root : bool)
    (kwargs : dict) :
  1 <= fuel -> node_depth config <= fuel -> dict_depth kwargs < fuel ->
  toy_get_kwargs fuel config root kwargs <> None.
Proof.
  intros H1 Hd Hk. unfold toy_get_kwargs.
  exact (@get_kwargs_enough_fuel toy_type_str toy_instantiate merge_with_spec (Some "dict")
           merge_with_spec_depth fuel config root kwargs H1 Hd Hk).
Qed.

(** ** Column widths *)

Lemma list_assign_spec (l : list nat) (i v : nat) :
  i < List.length l ->
  exists l',
    list_assign l i v = Some l'
    /\ List.length l' = List.length l
    /\ forall j, nth j l' 0 = if Nat.eqb j i then v else nth j l 0.
Proof.
  revert i. induction l as [|h t IH]; intros i Hi; cbn [List.length] in Hi; [lia|].
  destruct i as [|i].
  - exists (v :: t). split; [reflexivity|]. split; [reflexivity|].
    intros [|j]; reflexivity.
  - destruct (IH i ltac:(lia)) as (t' & Ht & Hlen & Hnth).
    exists (h :: t'). cbn [list_assign]. rewrite Ht.
    split; [reflexivity|]. split; [cbn [List.length]; lia|].
    intros [|j]; [reflexivity|]. cbn [nth Nat.eqb]. apply Hnth.
Qed.

Lemma cell_length_cons (col : string) (rest : list string) (j : nat) :
  cell_length (col :: rest) (S j) = cell_length rest j.
Proof. reflexivity. Qed.

(** One row widens the columns it has cells in, and only those. *)
Lemma widen_by_row_spec (row : list string) :
  forall widths idx,
    idx + List.length row <= List.length widths ->
    exists widths',
      widen_by_row widths idx row = Some widths'
      /\ List.length widths' = List.length widths
      /\ forall j, nth j widths' 0
                   = Nat.max (nth j widths 0)
                       (if Nat.ltb j idx then 0 else cell_length row (j - idx)).
Proof.
  induction row as [|col rest IH]; intros widths idx Hlen.
  - exists widths. split; [reflexivity|]. split; [reflexivity|].
    intros j. destruct (Nat.ltb j idx); [lia|].
    unfold cell_length. destruct (j - idx); cbn; lia.
  - cbn [List.length] in Hlen. cbn [widen_by_row].
    destruct (nth_error widths idx) as [w|] eqn:Hw;
      [|apply nth_error_None in Hw; lia].
    destruct (@list_assign_spec widths idx (Nat.max w (String.length col)))
      as (w1 & Hassign & Hlen1 & Hnth1); [lia|].
    rewrite Hassign.
    destruct (IH w1 (S idx)) as (w2 & Hrow & Hlen2 & Hnth2); [lia|].
    exists w2. split; [exact Hrow|]. split; [lia|].
    intros j. rewrite Hnth2, Hnth1.
    assert (Hwidx : nth idx widths 0 = w).
    { apply nth_error_nth. exact Hw. }
    destruct (Nat.eqb j idx) eqn:Ej.
    + apply Nat.eqb_eq in Ej. subst j.
      replace (Nat.ltb idx (S idx)) with true by (symmetry; apply Nat.ltb_lt; lia).
      replace (Nat.ltb idx idx) with false by (symmetry; apply Nat.ltb_ge; lia).
      rewrite Nat.sub_diag. cbn [cell_length nth_error]. lia.
    + apply Nat.eqb_neq in Ej.
      destruct (Nat.ltb j idx) eqn:Elt.
      * apply Nat.ltb_lt in Elt.
        replace (Nat.ltb j (S idx)) with true by (symmetry; apply Nat.ltb_lt; lia).
        reflexivity.
      * apply Nat.ltb_ge in Elt.
        replace (Nat.ltb j (S idx)) with false by (symmetry; apply Nat.ltb_ge; lia).
        replace (j - idx) with (S (j - S idx)) by lia.
        rewrite cell_length_cons. reflexivity.
Qed.

Lemma count_columns_from (matrix : list (list string)) (n : nat) :
  fold_left (fun num_cols row => Nat.max num_cols (List.length row)) matrix n
  = Nat.max n (list_max (map (@List.length string) matrix)).
Proof.
  revert n. induction matrix as [|row rest IH]; intros n; cbn [fold_left map].
  - cbn. lia.
  - rewrite IH. change (list_max (List.length row :: map (@List.length string) rest))
      with (Nat.max (List.length row) (list_max (map (@List.length string) rest))).
    lia.
Qed.

Lemma count_columns_longest (matrix : list (list string)) :
  count_columns matrix = list_max (map (@List.length string) matrix).
Proof. unfold count_columns. rewrite count_columns_from. lia. Qed.

(** All rows together: a column ends at the longest cell it has. *)
Lemma widen_by_rows_spec (matrix : list (list string)) :
  forall widths,
    list_max (map (@List.length string) matrix) <= List.length widths ->
    exists widths',
      widen_by_rows widths matrix = Some widths'
      /\ List.length widths' = List.length widths
      /\ forall j, nth j widths' 0
                   = Nat.max (nth j widths 0)
                       (list_max (map (fun row => cell_length row j) matrix)).
Proof.
  induction matrix as [|row rest IH]; intros widths Hlen.
  - exists widths. split; [reflexivity|]. split; [reflexivity|].
    intros j. cbn. lia.
  - change (list_max (map (@List.length string) (row :: rest)))
      with (Nat.max (List.length row) (list_max (map (@List.length string) rest)))
      in Hlen.
    cbn [widen_by_rows].
    destruct (@widen_by_row_spec row widths 0) as (w1 & Hrow & Hlen1 & Hnth1); [lia|].
    rewrite Hrow.
    destruct (IH w1) as (w2 & Hrest & Hlen2 & Hnth2); [lia|].
    exists w2. split; [exact Hrest|]. split; [lia|].
    intros j. rewrite Hnth2, Hnth1. cbn [Nat.ltb Nat.leb]. rewrite Nat.sub_0_r.
    change (list_max (map (fun r => cell_length r j) (row :: rest)))
      with (Nat.max (cell_length row j)
              (list_max (map (fun r => cell_length r j) rest))).
    lia.
Qed.

Lemma get_column_widths_spec (matrix : list (list string)) :
  exists widths,
    get_column_widths matrix = Some widths
    /\ List.length widths = list_max (map (@List.length string) matrix)
    /\ forall j, nth j widths 0 = list_max (map (fun row => cell_length row j) matrix).
Proof.
  unfold get_column_widths.
  destruct (@widen_by_rows_spec matrix (repeat 0 (count_columns matrix)))
    as (w & Hw & Hlen & Hnth).
  { rewrite repeat_length, count_columns_longest. lia. }
  exists w. split; [exact Hw|]. split.
  - rewrite Hlen, repeat_length. apply count_columns_longest.
  - intros j. rewrite Hnth.
    assert (H0 : nth j (repeat 0 (count_columns matrix)) 0 = 0).
    { generalize (count_columns matrix). intros n. revert j.
      induction n as [|n IHn]; intros [|j]; cbn; auto. }
    rewrite H0. lia.
Qed.

Lemma list_max_attained (l : list nat) : list_max l = 0 \/ In (list_max l) l.
Proof.
  induction l as [|a l IH]; [left; reflexivity|].
  change (list_max (a :: l)) with (Nat.max a (list_max l)).
  destruct (Nat.max_spec a (list_max l)) as [[Hlt ->]|[Hle ->]].
  - destruct IH as [H0|Hin]; [lia|right; right; exact Hin].
  - right. left. reflexivity.
Qed.

Lemma list_max_bounds (l : list nat) (x : nat) : In x l -> x <= list_max l.
Proof.
  intros Hin. pose proof (proj1 (list_max_le l (list_max l)) (Nat.le_refl _)) as H.
  rewrite Forall_forall in H. apply H. exact Hin.
Qed.

(** X1: the call never fails on an index, and returns one width per
    column of the longest row (none for an empty matrix). *)
Theorem get_column_widths_one_per_column (matrix : list (list string)) :
  exists widths,
    get_column_widths matrix = Some widths
    /\ List.length widths = list_max (map (@List.length string) matrix)
    /\ (matrix = [] -> widths = []).
Proof.
  destruct (get_column_widths_spec matrix) as (w & Hw & Hlen & _).
  exists w. split; [exact Hw|]. split; [exact Hlen|].
  intros ->. cbn in Hlen. destruct w; [reflexivity|discriminate].
Qed.

(** X2: every cell fits its column: the width of a column is at least
    the length of each cell in it. *)
Theorem get_column_widths_cells_fit (matrix : list (list string)) (widths : list nat)
    (row : list string) (idx : nat) (col : string) :
  get_column_widths matrix = Some widths ->
  In row matrix ->
  nth_error row idx = Some col ->
  exists w, nth_error widths idx = Some w /\ String.length col <= w.
Proof.
  intros Hcall Hrow Hcol.
  destruct (get_column_widths_spec matrix) as (w & Hw & Hlen & Hnth).
  rewrite Hw in Hcall. injection Hcall as <-.
  assert (Hidx : idx < List.length w).
  { rewrite Hlen.
    assert (Hl : List.length row <= list_max (map (@List.length string) matrix)).
    { apply list_max_bounds. apply in_map. exact Hrow. }
    assert (idx < List.length row) by (apply nth_error_Some; congruence).
    lia. }
  destruct (nth_error w idx) as [wi|] eqn:Hwi;
    [|apply nth_error_None in Hwi; lia].
  exists wi. split; [reflexivity|].
  assert (Hn : nth idx w 0 = wi) by (apply nth_error_nth; exact Hwi).
  rewrite Hnth in Hn. subst wi.
  apply list_max_bounds.
  apply in_map_iff. exists row. split; [|exact Hrow].
  unfold cell_length. rewrite Hcol. reflexivity.
Qed.

(** X3: no column is wider than it has to be: its width is the length
    of one of its cells. *)
Theorem get_column_widths_attained (matrix : list (list string)) (widths : list nat)
    (idx w : nat) :
  get_column_widths matrix = Some widths ->
  nth_error widths idx = Some w ->
  exists row col,
    In row matrix /\ nth_error row idx = Some col /\ String.length col = w.
Proof.
  intros Hcall Hw.
  destruct (get_column_widths_spec matrix) as (ws & Hws & Hlen & Hnth).
  rewrite Hws in Hcall. injection Hcall as <-.
  assert (Hidx : idx < List.length ws) by (apply nth_error_Some; congruence).
  assert (Hn : nth idx ws 0 = w) by (apply nth_error_nth; exact Hw).
  rewrite Hnth in Hn.
  destruct (list_max_attained (map (fun row => cell_length row idx) matrix))
    as [H0|Hin].
  - (* every cell of the column is empty: take the cell of a longest row *)
    rewrite Hlen in Hidx.
    destruct (list_max_attained (map (@List.length string) matrix)) as [Hz|Hlong];
      [lia|].
    apply in_map_iff in Hlong. destruct Hlong as (row & Hrowlen & Hrow).
    destruct (nth_error row idx) as [col|] eqn:Hcol;
      [|apply nth_error_None in Hcol; lia].
    exists row, col. split; [exact Hrow|]. split; [exact Hcol|].
    assert (Hle : cell_length row idx
                  <= list_max (map (fun r => cell_length r idx) matrix)).
    { apply list_max_bounds. apply in_map_iff. exists row. split; [reflexivity|exact Hrow]. }
    unfold cell_length in Hle at 1. rewrite Hcol in Hle. cbv beta iota in Hle. lia.
  - apply in_map_iff in Hin. destruct Hin as (row & Hcell & Hrow).
    rewrite Hn in Hcell. unfold cell_length in Hcell.
    destruct (nth_error row idx) as [col|] eqn:Hcol.
    + exists row, col. split; [exact Hrow|]. split; [exact Hcol|exact Hcell].
    + (* the width is 0: as above, through a longest row *)
      subst w. rewrite Hlen in Hidx.
      destruct (list_max_attained (map (@List.length string) matrix)) as [Hz|Hlong];
        [lia|].
      apply in_map_iff in Hlong. destruct Hlong as (row' & Hrowlen & Hrow').
      destruct (nth_error row' idx) as [col'|] eqn:Hcol';
        [|apply nth_error_None in Hcol'; lia].
      exists row', col'. split; [exact Hrow'|]. split; [exact Hcol'|].
      assert (Hle : cell_length row' idx
                    <= list_max (map (fun r => cell_length r idx) matrix)).
      { apply list_max_bounds. apply in_map_iff. exists row'.
        split; [reflexivity|exact Hrow']. }
      unfold cell_length in Hle at 1. rewrite Hcol' in Hle. cbv beta iota in Hle. lia.
Qed.

Example get_column_widths_run :
  get_column_widths [["name"; "id"]; ["a"; "12345"; "x"]; []] = Some [4; 5; 1].
Proof. reflexivity. Qed.

Lemma get_column_widths_cells_fit_witness :
  exists w, nth_error [4; 5; 1] 1 = Some w /\ String.length "12345" <= w.
Proof.
  apply (@get_column_widths_cells_fit
           [["name"; "id"]; ["a"; "12345"; "x"]; []] [4; 5; 1]
           ["a"; "12345"; "x"] 1 "12345").
  - reflexivity.
  - right. left. reflexivity.
  - reflexivity.
Defined.

Lemma get_column_widths_attained_witness :
  exists row col,
    In row [["name"; "id"]; ["a"; "12345"; "x"]; []]
    /\ nth_error row 0 = Some col /\ String.length col = 4.
Proof.
  apply (@get_column_widths_attained
           [["name"; "id"]; ["a"; "12345"; "x"]; []] [4; 5; 1] 0 4).
  - reflexivity.
  - reflexivity.
Defined.

(** ** The target name *)

Lemma contains_lookup (k : string) (d : dict) :
  contains k d = false <-> lookup k d = None.
Proof.
  unfold contains. destruct (lookup k d); split; intros H; congruence.
Qed.

(** X4: the peeking call ([pop=False]) leaves the dictionary as it is
    and answers what the popping call answers, so it can be repeated;
    the popping call returns the dictionary without [_target_]. *)
Theorem get_cls_name_peek_agrees_with_pop (config : dict) :
  fst (_get_cls_name config false) = config
  /\ snd (_get_cls_name config false) = snd (_get_cls_name config true)
  /\ _get_cls_name (fst (_get_cls_name config false)) false = _get_cls_name config false
  /\ _get_cls_name (fst (_get_cls_name config false)) true = _get_cls_name config true
  /\ fst (_get_cls_name config true) = remove "_target_" config.
Proof.
  assert (Hpeek : fst (_get_cls_name config false) = config).
  { unfold _get_cls_name. destruct (contains "_target_" config); cbn [negb];
      [|reflexivity].
    destruct (lookup "_target_" config) as [[]|]; reflexivity. }
  split; [exact Hpeek|]. split; [|split; [|split]].
  - unfold _get_cls_name. destruct (contains "_target_" config); cbn [negb];
      [|reflexivity].
    destruct (lookup "_target_" config) as [[]|]; reflexivity.
  - rewrite Hpeek. reflexivity.
  - rewrite Hpeek. reflexivity.
  - unfold _get_cls_name. destruct (contains "_target_" config) eqn:Hc; cbn [negb].
    + destruct (lookup "_target_" config) as [[]|]; reflexivity.
    + cbn [fst]. symmetry. apply remove_absent. apply contains_lookup. exact Hc.
Qed.

(** X5: the popping call consumes the name: whatever it answered, a
    second call on the dictionary it left, popping or peeking, raises
    for the missing field, and the mapping is no longer a target. *)
Theorem get_cls_name_pop_consumes (config : dict) (pop : bool) (tag : object_type) :
  let config' := fst (_get_cls_name config true) in
  _get_cls_name config' pop = (config', inl NoTargetField)
  /\ _is_target (NDict tag config') = false.
Proof.
  cbv zeta.
  assert (Hleft : fst (_get_cls_name config true) = remove "_target_" config).
  { unfold _get_cls_name. destruct (contains "_target_" config) eqn:Hc; cbn [negb].
    - destruct (lookup "_target_" config) as [[]|]; reflexivity.
    - cbn [fst]. symmetry. apply remove_absent. apply contains_lookup. exact Hc. }
  rewrite Hleft. split.
  - unfold _get_cls_name. rewrite contains_remove_same. reflexivity.
  - cbn [_is_target]. apply contains_remove_same.
Qed.

Lemma target_of_remove (d : dict) : target_of (remove "_target_" d) = None.
Proof. unfold target_of. rewrite lookup_remove_same. reflexivity. Qed.

Section TargetComposition.

Variable world : Type.
Variable import_module : world -> string -> world * (string + pyobj).
Variable getattr : world -> pyobj -> string -> option pyobj.
Variable builtins : pyobj.

Lemma get_target_type_frame (config kwargs : dict) (st : istate world) :
  let call := _get_target_type import_module getattr builtins config kwargs st in
  tf_config (fst call) = remove "_target_" config
  /\ tf_kwargs (fst call) = remove "_target_" kwargs.
Proof.
  cbv zeta. unfold _get_target_type. rewrite !pop_target_spec.
  destruct (target_of kwargs) as [t|]; [|destruct (target_of config) as [t|]];
    try (destruct t as [| | |path| |o| |];
         try (split; reflexivity);
         [destruct (_locate import_module getattr builtins st path); split; reflexivity
         |destruct (obj_is_type o), (obj_callable o); split; reflexivity]).
  split; reflexivity.
Qed.

(** X6: target extraction cannot be run again on what it left: both
    dictionaries have lost [_target_], so a second extraction raises
    "Unable to determine target" in any interpreter state, without an
    import, and [_get_cls_name] finds no field. *)
Theorem get_target_type_not_repeatable (config kwargs : dict)
    (st st' : istate world) (pop : bool) :
  let left := fst (_get_target_type import_module getattr builtins config kwargs st) in
  _get_target_type import_module getattr builtins (tf_config left) (tf_kwargs left) st'
  = (mk_target_frame (tf_config left) (tf_kwargs left) st', Raise Inst_NoTarget)
  /\ _get_cls_name (tf_config left) pop = (tf_config left, inl NoTargetField).
Proof.
  cbv zeta.
  destruct (get_target_type_frame config kwargs st) as [Hc Hk].
  rewrite Hc, Hk. split.
  - unfold _get_target_type. rewrite !pop_target_spec, !target_of_remove.
    rewrite !(remove_absent _ _ (lookup_remove_same _ _)). reflexivity.
  - unfold _get_cls_name. rewrite contains_remove_same. reflexivity.
Qed.

(** X7: the name [_get_cls_name] peeks is the path target extraction
    resolves when the overlay names no target: the extraction is the
    call of [_locate] on that name, and it leaves the dictionary the
    popping [_get_cls_name] leaves. *)
Theorem get_cls_name_is_the_located_path (config kwargs : dict) (name : string)
    (st : istate world) :
  _get_cls_name config false = (config, inr name) ->
  target_of kwargs = None ->
  let call := _get_target_type import_module getattr builtins config kwargs st in
  (tf_state (fst call), snd call) = _locate import_module getattr builtins st name
  /\ tf_config (fst call) = fst (_get_cls_name config true).
Proof.
  intros Hpeek Hkw. cbv zeta.
  assert (Hl : lookup "_target_" config = Some (NStr name)).
  { unfold _get_cls_name in Hpeek.
    destruct (contains "_target_" config); cbn [negb] in Hpeek; [|discriminate].
    destruct (lookup "_target_" config) as [[]|]; try discriminate.
    injection Hpeek as ->. reflexivity. }
  split.
  - unfold _get_target_type. rewrite !pop_target_spec, Hkw.
    unfold target_of. rewrite Hl.
    destruct (_locate import_module getattr builtins st name). reflexivity.
  - destruct (get_target_type_frame config kwargs st) as [Hc _]. rewrite Hc.
    unfold _get_cls_name, contains. rewrite Hl. reflexivity.
Qed.

End TargetComposition.

Lemma get_cls_name_is_the_located_path_witness :
  let call := _get_target_type toy_import toy_getattr toy_builtins
                [("_target_", NStr "pkg.Foo"); ("x", NInt 1)] [("y", NInt 2)]
                toy_start in
  (tf_state (fst call), snd call) = toy_locate toy_start "pkg.Foo"
  /\ tf_config (fst call)
     = fst (_get_cls_name [("_target_", NStr "pkg.Foo"); ("x", NInt 1)] true).
Proof.
  apply (@get_cls_name_is_the_located_path (list string) toy_import toy_getattr
           toy_builtins [("_target_", NStr "pkg.Foo"); ("x", NInt 1)]
           [("y", NInt 2)] "pkg.Foo" toy_start); reflexivity.
Defined.

(** ** Extraction consumes what it extracts *)

(** X8: a recursion flag is read once: after an extraction that
    returned, a second one on the dictionaries it left returns the
    default, true, and changes nothing. *)
Theorem is_recursive_second_run_is_default (type_str : node -> outcome string)
    (config kwargs config' kwargs' : dict) (b : bool) :
  _is_recursive type_str config kwargs = (config', kwargs', Return b) ->
  _is_recursive type_str config' kwargs' = (config', kwargs', Return true).
Proof.
  intros H. apply is_recursive_return in H. destruct H as [-> ->].
  unfold _is_recursive, _is_rec. rewrite !lookup_remove_same. reflexivity.
Qed.

Lemma is_recursive_second_run_is_default_witness :
  _is_recursive toy_type_str [("a", NInt 1)] [] = ([("a", NInt 1)], [], Return true).
Proof.
  apply (@is_recursive_second_run_is_default toy_type_str
           [("_recursive_", NBool false); ("a", NInt 1)] [("_recursive_", NBool true)]
           [("a", NInt 1)] [] true).
  reflexivity.
Defined.

(** X9: the convert directive is read once: whatever the first call
    answered, also when it raised, a second call on the dictionary it
    left returns the default NONE and changes nothing. *)
Theorem pop_convert_mode_second_run_is_default (d : dict) :
  _pop_convert_mode (fst (_pop_convert_mode d))
  = (fst (_pop_convert_mode d), Return NONE).
Proof.
  assert (Hleft : fst (_pop_convert_mode d) = remove "_convert_" d).
  { unfold _pop_convert_mode. destruct (lookup "_convert_" d) as [v|] eqn:E.
    - destruct v; try reflexivity.
      destruct (s =? "none"), (s =? "partial"), (s =? "all"); reflexivity.
    - symmetry. now apply remove_absent. }
  rewrite Hleft. unfold _pop_convert_mode. rewrite lookup_remove_same. reflexivity.
Qed.

(** The three directives do not get in each other's way. *)
Lemma lookup_after_other_pop (k k' : string) (d : dict) :
  k <> k' -> contains k' (remove k d) = contains k' d.
Proof. intros H. unfold contains. now rewrite lookup_remove_other. Qed.

(** ** More on the engine *)

Lemma lookup_same_keys (P : node -> node -> Prop) (k : string) (l l' : dict) :
  Forall2 (fun kv kv' => fst kv' = fst kv /\ P (snd kv) (snd kv')) l l' ->
  match lookup k l with
  | None => lookup k l' = None
  | Some v => exists v', lookup k l' = Some v' /\ P v v'
  end.
Proof.
  induction 1 as [|[k1 v1] [k2 v2] l l' [Hk HP] _ IH]; [reflexivity|].
  cbn [fst snd] in Hk, HP. subst k2. cbn [lookup].
  destruct (k1 =? k); [eauto|exact IH].
Qed.

Lemma for_each_first_raise (A B : Type) (body : A -> M (A * B))
    (pre : list A) (x : A) (post : list A) (e : exn) :
  Forall (fun y => exists p, body y = Some (Return p)) pre ->
  body x = Some (Raise e) ->
  for_each body (pre ++ x :: post)%list = Some (Raise e).
Proof.
  intros Hpre Hx. induction Hpre as [|y pre [p Hp] _ IH].
  - cbn [app for_each]. rewrite Hx. reflexivity.
  - cbn [app for_each]. rewrite Hp. cbn [bind]. rewrite IH. reflexivity.
Qed.

Section EngineMore.

Variable type_str : node -> outcome string.
Variable instantiate : node -> outcome node.
Variable merge_with : dict -> dict -> dict.
Variable fresh_object_type : object_type.

(** X10: the recursion flag does not reach the fields handed on: after
    a call on a mapping that returned, neither the returned node nor the
    caller's node binds [_recursive_]; so a second call on the caller's
    node without a flag in the overlay walks recursively, also when the
    node had declared [_recursive_: false]. *)
Theorem get_kwargs_consumes_recursive_flag (fuel : nat) (tag : object_type)
    (items kwargs : dict) (root : bool) (config' result : node) :
  merge_adds_no_key merge_with ->
  _get_kwargs type_str instantiate merge_with fresh_object_type fuel
    (NDict tag items) root kwargs = Some (Return (config', result)) ->
  exists left out,
    config' = NDict tag left
    /\ result = NDict (if root then fresh_object_type else tag) out
    /\ lookup "_recursive_" left = None
    /\ lookup "_recursive_" out = None
    /\ forall kwargs2, lookup "_recursive_" kwargs2 = None ->
         _is_recursive type_str left kwargs2 = (left, kwargs2, Return true).
Proof.
  intros Hmerge Hcall.
  apply get_kwargs_dict_return in Hcall.
  destruct Hcall as (recursive & left & out & _ & -> & -> & HFl & HFo & _).
  assert (Hm : lookup "_recursive_"
                 (merge_with (remove "_recursive_" items) (remove "_recursive_" kwargs))
               = None).
  { apply Hmerge; apply lookup_remove_same. }
  assert (Hl : lookup "_recursive_" left = None).
  { pose proof (lookup_same_keys (fun v v' => field_left v v') "_recursive_" HFl) as H.
    rewrite Hm in H. exact H. }
  assert (Ho : lookup "_recursive_" out = None).
  { pose proof (lookup_same_keys
                  (fun v o => (recursive = true -> field_processed instantiate v o)
                              /\ field_keeps_tags recursive v o)
                  "_recursive_" HFo) as H.
    rewrite Hm in H. exact H. }
  exists left, out. repeat split; try assumption.
  intros kwargs2 Hk2. unfold _is_recursive, _is_rec. rewrite Hk2, Hl. reflexivity.
Qed.

(** X11: the walk fails fast: when the collaborator raises for a
    targeted field and every field before it is a null, a scalar or a
    target the collaborator returns for, the call raises that exception,
    whatever the fields after it are. *)
Theorem get_kwargs_fails_fast (fuel : nat) (tag : object_type)
    (items kwargs items1 kwargs1 : dict) (root : bool)
    (pre post : dict) (k : string) (v : node) (e : exn) :
  _is_recursive type_str items kwargs = (items1, kwargs1, Return true) ->
  merge_with items1 kwargs1 = (pre ++ (k, v) :: post)%list ->
  Forall (fun kv => is_none (snd kv) = true
                    \/ is_scalar (snd kv) = true
                    \/ (_is_target (snd kv) = true
                        /\ exists o, instantiate (snd kv) = Return o)) pre ->
  _is_target v = true ->
  instantiate v = Raise e ->
  _get_kwargs type_str instantiate merge_with fresh_object_type (S fuel)
    (NDict tag items) root kwargs = Some (Raise e).
Proof.
  intros Hrec Hmerged Hpre Ht Hv.
  cbn [_get_kwargs]. rewrite Hrec, Hmerged.
  rewrite (@for_each_first_raise _ _ _ pre (k, v) post e).
  - reflexivity.
  - eapply Forall_impl; [|exact Hpre].
    intros kv Hkv. apply field_item_simple_returns. exact Hkv.
  - unfold field_item. rewrite Ht.
    destruct (is_none v) eqn:Hn; [destruct v; discriminate|].
    unfold call_instantiate. rewrite Hv. reflexivity.
Qed.

End EngineMore.

Lemma lookup_app (k : string) (l l' : dict) :
  lookup k (l ++ l')%list
  = match lookup k l with Some v => Some v | None => lookup k l' end.
Proof.
  induction l as [|[k1 v1] l IH]; [reflexivity|].
  cbn [app lookup]. destruct (k1 =? k); [reflexivity|exact IH].
Qed.

Lemma merge_with_spec_adds_no_key : merge_adds_no_key merge_with_spec.
Proof.
  intros a b k Ha Hb. unfold merge_with_spec. rewrite lookup_app.
  assert (H1 : lookup k (map (fun kv => match lookup (fst kv) b with
                                        | Some v => (fst kv, v)
                                        | None => kv
                                        end) a) = None).
  { induction a as [|[k1 v1] a IH]; [reflexivity|].
    cbn [lookup] in Ha. cbn [map fst].
    destruct (k1 =? k) eqn:E; [discriminate|].
    destruct (lookup k1 b); cbn [lookup]; rewrite E; apply IH; exact Ha. }
  rewrite H1. clear H1.
  induction b as [|[k1 v1] b IH]; [reflexivity|].
  cbn [lookup] in Hb. destruct (k1 =? k) eqn:E; [discriminate|].
  cbn [filter fst]. destruct (negb (contains k1 a)); [cbn [lookup]; rewrite E|];
    apply IH; exact Hb.
Qed.

Lemma merge_with_spec_empty_overlay : merge_empty_overlay merge_with_spec.
Proof.
  intros a. unfold merge_with_spec. cbn [filter]. rewrite app_nil_r.
  induction a as [|kv a IH]; [reflexivity|].
  cbn [map]. f_equal. exact IH.
Qed.

Lemma get_kwargs_consumes_recursive_flag_witness :
  exists left out,
    NDict (Some "Cfg") [("a", NInt 1)] = NDict (Some "Cfg") left
    /\ NDict (Some "dict") [("a", NInt 1)] = NDict (Some "dict") out
    /\ lookup "_recursive_" left = None
    /\ lookup "_recursive_" out = None
    /\ forall kwargs2, lookup "_recursive_" kwargs2 = None ->
         _is_recursive toy_type_str left kwargs2 = (left, kwargs2, Return true).
Proof.
  apply (@get_kwargs_consumes_recursive_flag toy_type_str toy_instantiate merge_with_spec
           (Some "dict") 1 (Some "Cfg") [("_recursive_", NBool false); ("a", NInt 1)]
           [] true (NDict (Some "Cfg") [("a", NInt 1)])
           (NDict (Some "dict") [("a", NInt 1)])).
  - exact merge_with_spec_adds_no_key.
  - reflexivity.
Defined.

Lemma get_kwargs_fails_fast_witness :
  toy_get_kwargs 1
    (NDict None [("n", NNone); ("a", example_a);
                 ("bad", NDict None [("_target_", NInt 3)]);
                 ("never", NDict None [("_target_", NBool true)])])
    true []
  = Some (Raise (Collaborator "no target")).
Proof.
  apply (@get_kwargs_fails_fast toy_type_str toy_instantiate merge_with_spec (Some "dict") 0 None
           [("n", NNone); ("a", example_a);
            ("bad", NDict None [("_target_", NInt 3)]);
            ("never", NDict None [("_target_", NBool true)])]
           []
           [("n", NNone); ("a", example_a);
            ("bad", NDict None [("_target_", NInt 3)]);
            ("never", NDict None [("_target_", NBool true)])]
           [] true
           [("n", NNone); ("a", example_a)]
           [("never", NDict None [("_target_", NBool true)])]
           "bad" (NDict None [("_target_", NInt 3)]) (Collaborator "no target")).
  - reflexivity.
  - reflexivity.
  - constructor; [left; reflexivity|].
    constructor; [|constructor].
    right. right. split; [reflexivity|]. eexists. reflexivity.
  - reflexivity.
  - reflexivity.
Defined.

Section EngineSequences.

Variable type_str : node -> outcome string.
Variable instantiate : node -> outcome node.
Variable merge_with : dict -> dict -> dict.
Variable fresh_object_type : object_type.

(** X12: a call on a sequence node constructs none of its elements: an
    element that is not a container comes back as it is, and an element
    that is a mapping with a target path comes back as a mapping under
    its tag that still binds [_target_] to that path. (A sequence that
    is the value of a field is walked by the loop of its parent, which
    does construct such elements.) *)
Theorem get_kwargs_sequence_keeps_targets (fuel : nat) (elems : list node)
    (kwargs : dict) (root : bool) (config' result : node) :
  merge_empty_overlay merge_with ->
  _get_kwargs type_str instantiate merge_with fresh_object_type fuel
    (NList elems) root kwargs = Some (Return (config', result)) ->
  exists outs,
    result = NList outs
    /\ Forall2 (fun x o =>
                  (is_config x = false -> o = x)
                  /\ forall t its path,
                       x = NDict t its ->
                       lookup "_target_" its = Some (NStr path) ->
                       exists outs', o = NDict t outs'
                                     /\ lookup "_target_" outs' = Some (NStr path))
         elems outs.
Proof.
  intros Hmerge Hcall.
  destruct fuel as [|fuel]; [discriminate|].
  cbn [_get_kwargs] in Hcall.
  apply bind_return in Hcall. destruct Hcall as ([left outs] & Hloop & H).
  cbn in H. injection H as <- <-.
  apply for_each_return in Hloop. destruct Hloop as (ps & HF & -> & ->).
  exists (map snd ps). split; [reflexivity|].
  apply Forall2_map_right with (2 := HF).
  intros x [c r] Hx. cbn beta in Hx. cbn [snd]. split.
  - intros Hc. rewrite Hc in Hx. cbn in Hx. injection Hx as _ <-. reflexivity.
  - intros t its path -> Hpath. cbn [is_config is_dict orb] in Hx.
    apply get_kwargs_dict_return in Hx.
    destruct Hx as (recursive & left & out & _ & _ & -> & _ & HFo & _).
    exists out. split; [reflexivity|].
    cbn [remove] in HFo. rewrite Hmerge in HFo.
    pose proof (lookup_same_keys
                  (fun v o => (recursive = true -> field_processed instantiate v o)
                              /\ field_keeps_tags recursive v o)
                  "_target_" HFo) as H.
    rewrite lookup_remove_other in H by discriminate.
    rewrite Hpath in H. destruct H as (o & Ho & Hp & Ht).
    rewrite Ho. destruct recursive.
    + destruct (Hp eq_refl) as (_ & _ & Hs). rewrite (Hs eq_refl). reflexivity.
    + cbn in Ht. rewrite Ht. reflexivity.
Qed.

End EngineSequences.

Lemma get_kwargs_sequence_keeps_targets_witness :
  exists outs,
    NList [example_a; NInt 4] = NList outs
    /\ Forall2 (fun x o =>
                  (is_config x = false -> o = x)
                  /\ forall t its path,
                       x = NDict t its ->
                       lookup "_target_" its = Some (NStr path) ->
                       exists outs', o = NDict t outs'
                                     /\ lookup "_target_" outs' = Some (NStr path))
         [example_a; NInt 4] outs.
Proof.
  apply (@get_kwargs_sequence_keeps_targets toy_type_str toy_instantiate merge_with_spec
           (Some "dict") 2 [example_a; NInt 4] [] false
           (NList [example_a; NInt 4]) (NList [example_a; NInt 4])).
  - exact merge_with_spec_empty_overlay.
  - reflexivity.
Defined.

(** The same element under a field is constructed, under a sequence
    node it is not. *)
Example sequence_node_against_sequence_field :
  toy_get_kwargs 2 (NDict None [("l", NList [example_a])]) true []
  = Some (Return (NDict None [("l", NList [example_a])],
                  NDict (Some "dict") [("l", NList [built_Bar])]))
  /\ toy_get_kwargs 2 (NList [example_a]) false []
     = Some (Return (NList [example_a], NList [example_a])).
Proof. split; reflexivity. Qed.

(** ** Dotted names and paths *)

Lemma rfind_none_no_dot (s : string) : rfind dot s = None -> has_dot s = false.
Proof.
  unfold has_dot. induction s as [|a rest IH]; intros H; [reflexivity|].
  cbn [rfind] in H. cbn [list_ascii_of_string existsb].
  destruct (rfind dot rest) as [i|]; [discriminate|].
  destruct (Ascii.eqb a dot) eqn:E; [discriminate|].
  rewrite Ascii.eqb_sym, E. cbn [orb]. apply IH. reflexivity.
Qed.

(** The last occurrence splits the string, and nothing after it is the
    character. *)
Lemma rfind_split (c : ascii) (s : string) (i : nat) :
  rfind c s = Some i ->
  s = (str_take i s ++ String c (str_drop (S i) s))%string
  /\ rfind c (str_drop (S i) s) = None.
Proof.
  revert i. induction s as [|a rest IH]; intros i H; [discriminate|].
  cbn [rfind] in H. destruct (rfind c rest) as [j|] eqn:Hr.
  - injection H as <-. destruct (IH j eq_refl) as [Hs Hn].
    cbn [str_take str_drop]. split; [|exact Hn].
    cbn [append]. f_equal. exact Hs.
  - destruct (Ascii.eqb a c) eqn:E; [|discriminate].
    injection H as <-. apply Ascii.eqb_eq in E. subst a.
    cbn [str_take str_drop append]. split; [reflexivity|exact Hr].
Qed.

Lemma str_drop_length (n : nat) (s : string) :
  String.length (str_drop n s) = String.length s - n.
Proof.
  revert s. induction n as [|n IH]; intros s; [cbn; lia|].
  destruct s as [|a rest]; [reflexivity|]. cbn [str_drop String.length]. apply IH.
Qed.

Section CallingContextFacts.

Variable basename : string -> string.
Variable splitext_root : string -> string.
Variable get_valid_filename : string -> string.

(** X13: for a module the task name is its last dotted component: it
    has no dot, and the module is the name itself or its parent package,
    a dot and the name. *)
Theorem detect_task_name_is_last_component (module : string) :
  exists task_name,
    detect_task_name basename splitext_root get_valid_filename None (Some module)
    = Some task_name
    /\ has_dot task_name = false
    /\ ((has_dot module = false /\ module = task_name)
        \/ module = (parent_package module ++ "." ++ task_name)%string).
Proof.
  unfold detect_task_name, parent_package.
  destruct (rfind dot module) as [i|] eqn:Hr.
  - exists (str_drop (i + 1) module). split; [reflexivity|].
    destruct (rfind_split dot module Hr) as [Hs Hn].
    replace (i + 1) with (S i) by lia. split.
    + apply rfind_none_no_dot. exact Hn.
    + right. exact Hs.
  - exists module. split; [reflexivity|].
    pose proof (rfind_none_no_dot module Hr) as Hd. auto.
Qed.

Lemma detect_task_name_module_returns (module : string) :
  exists task_name,
    detect_task_name basename splitext_root get_valid_filename None (Some module)
    = Some task_name.
Proof.
  unfold detect_task_name. destruct (rfind dot module); eexists; reflexivity.
Qed.

(** X14: the call never raises the ValueError of [detect_task_name],
    and it names exactly one origin: the file of the function, or a
    module other than [__main__]. A module given by the environment
    goes before the module of the function. *)
Theorem detect_calling_origin_is_one (environ : string -> option string)
    (f : task_function) :
  exists calling_file calling_module task_name,
    detect_calling_file_or_module_from_task_function
      basename splitext_root get_valid_filename environ f
    = Some (calling_file, calling_module, task_name)
    /\ ((calling_file = Some (fn_filename f) /\ calling_module = None)
        \/ (calling_file = None
            /\ exists m, calling_module = Some m /\ m <> "__main__"))
    /\ (forall override,
          _get_module_name_override environ = Some override ->
          override <> "__main__" ->
          calling_file = None /\ calling_module = Some override)
    /\ (_get_module_name_override environ = Some "__main__" ->
        calling_file = Some (fn_filename f)).
Proof.
  unfold detect_calling_file_or_module_from_task_function.
  destruct (_get_module_name_override environ) as [o|].
  - destruct (o =? "__main__") eqn:E.
    + apply String.eqb_eq in E. subst o.
      cbn [detect_task_name]. do 3 eexists. split; [reflexivity|].
      split; [left; split; reflexivity|]. split; [|reflexivity].
      intros ov Hov Hne. congruence.
    + apply String.eqb_neq in E.
      destruct (detect_task_name_module_returns o) as (t & Ht).
      rewrite Ht. do 3 eexists. split; [reflexivity|].
      split; [right; split; [reflexivity|exists o; split; [reflexivity|exact E]]|].
      split.
      * intros ov Hov _. injection Hov as <-. split; reflexivity.
      * intros Hm. congruence.
  - destruct (fn_module f) as [m|].
    + destruct (m =? "__main__") eqn:E.
      * cbn [detect_task_name]. do 3 eexists. split; [reflexivity|].
        split; [left; split; reflexivity|]. split; discriminate.
      * apply String.eqb_neq in E.
        destruct (detect_task_name_module_returns m) as (t & Ht).
        rewrite Ht. do 3 eexists. split; [reflexivity|].
        split; [right; split; [reflexivity|exists m; split; [reflexivity|exact E]]|].
        split; discriminate.
    + cbn [detect_task_name]. do 3 eexists. split; [reflexivity|].
      split; [left; split; reflexivity|]. split; discriminate.
Qed.

End CallingContextFacts.

(** ** The search path *)

Lemma strip_parent_dirs_exits (rounds : nat) :
  forall config_path calling_module,
    String.length config_path <= rounds ->
    prefix "../" (fst (strip_parent_dirs rounds config_path calling_module)) = false.
Proof.
  induction rounds as [|rounds IH]; intros cp m Hlen.
  - destruct cp; [reflexivity|cbn in Hlen; lia].
  - cbn [strip_parent_dirs]. destruct (prefix "../" cp) eqn:Hp; [|exact Hp].
    apply IH. rewrite str_drop_length.
    change (String.length "../") with 3. lia.
Qed.

Lemma strip_parent_dirs_step (rounds : nat) (config_path calling_module : string) :
  strip_parent_dirs (S rounds) config_path calling_module
  = if prefix "../" config_path
    then strip_parent_dirs rounds (str_drop (String.length "../") config_path)
           (parent_package calling_module)
    else (config_path, calling_module).
Proof. reflexivity. Qed.

(** Rounds beyond the length of the path are not used. *)
Lemma strip_parent_dirs_rounds (r1 : nat) :
  forall r2 config_path calling_module,
    String.length config_path <= r1 -> String.length config_path <= r2 ->
    strip_parent_dirs r1 config_path calling_module
    = strip_parent_dirs r2 config_path calling_module.
Proof.
  induction r1 as [|r1 IH]; intros r2 cp m H1 H2.
  - destruct cp; [|cbn in H1; lia]. destruct r2; reflexivity.
  - destruct r2 as [|r2].
    + destruct cp; [reflexivity|cbn in H2; lia].
    + cbn [strip_parent_dirs]. destruct (prefix "../" cp) eqn:Hp; [|reflexivity].
      apply IH; rewrite str_drop_length; change (String.length "../") with 3; lia.
Qed.

Lemma prefix_up_dir (s : string) :
  prefix "../" s = true -> s = ("../" ++ str_drop (String.length "../") s)%string.
Proof.
  destruct s as [|a s]; [discriminate|]. cbn [prefix].
  destruct (ascii_dec "." a) as [<-|]; [|discriminate].
  destruct s as [|b s]; [discriminate|]. cbn [prefix].
  destruct (ascii_dec "." b) as [<-|]; [|discriminate].
  destruct s as [|c s]; [discriminate|]. cbn [prefix].
  destruct (ascii_dec "/" c) as [<-|]; [|discriminate].
  reflexivity.
Qed.

(** The loop uses up the leading [../] of the path, going one package
    up for each. *)
Lemma strip_parent_dirs_spec (rounds : nat) :
  forall config_path calling_module,
    String.length config_path <= rounds ->
    exists ups rest,
      config_path = (up_dirs ups ++ rest)%string
      /\ prefix "../" rest = false
      /\ strip_parent_dirs rounds config_path calling_module
         = (rest, Nat.iter ups parent_package calling_module).
Proof.
  induction rounds as [|rounds IH]; intros cp m Hlen.
  - destruct cp; [|cbn in Hlen; lia]. exists 0, "". repeat split.
  - rewrite strip_parent_dirs_step. destruct (prefix "../" cp) eqn:Hp.
    + destruct (IH (str_drop (String.length "../") cp) (parent_package m))
        as (ups & rest & Hcp & Hrest & Hstrip).
      { rewrite str_drop_length. change (String.length "../") with 3. lia. }
      exists (S ups), rest. split; [|split; [exact Hrest|]].
      * rewrite (prefix_up_dir cp Hp) at 1. rewrite Hcp.
        cbn [up_dirs]. rewrite append_assoc. reflexivity.
      * rewrite Hstrip. rewrite Nat.iter_succ_r. reflexivity.
    + exists 0, cp. repeat split. exact Hp.
Qed.

Lemma replace_char_length (a b : ascii) (s : string) :
  String.length (replace_char a b s) = String.length s.
Proof.
  induction s as [|c s IH]; [reflexivity|].
  cbn [replace_char String.length]. f_equal. exact IH.
Qed.

Section SearchPathFacts.

Variable sep : ascii.
Variable realpath : string -> string.
Variable dirname : string -> string.
Variable path_join : string -> string -> string.
Variable normpath : string -> string.

(** X15: for a module the search path is a [pkg://] address. With a
    config path that, once the separator is replaced by a slash, is [n]
    times [../] and then a rest that does not start with [../], the
    package is the module taken [n + 1] packages up (the empty package
    from the top on), and the address is the package and the rest,
    joined by a slash unless the package is empty. Without a config
    path it is the parent package of the module. The file functions of
    [os.path] play no part. *)
Theorem compute_search_path_dir_of_module (calling_module config_path : string) :
  (exists ups rest,
      replace_char sep "/" config_path = (up_dirs ups ++ rest)%string
      /\ prefix "../" rest = false
      /\ compute_search_path_dir sep realpath dirname path_join normpath
           None (Some calling_module) (Some config_path)
         = Some ("pkg://" ++ Nat.iter (S ups) parent_package calling_module
                 ++ (if Nat.iter (S ups) parent_package calling_module =? ""
                     then rest else "/" ++ rest))%string)
  /\ compute_search_path_dir sep realpath dirname path_join normpath
       None (Some calling_module) None
     = Some ("pkg://" ++ parent_package calling_module)%string.
Proof.
  split; [|reflexivity].
  unfold compute_search_path_dir.
  destruct (@strip_parent_dirs_spec
              (String.length (replace_char sep "/" config_path))
              (replace_char sep "/" config_path)
              (parent_package calling_module) (Nat.le_refl _))
    as (ups & rest & Hcp & Hrest & Hstrip).
  exists ups, rest. split; [exact Hcp|]. split; [exact Hrest|].
  rewrite Hstrip. rewrite Nat.iter_succ_r.
  destruct (Nat.iter ups parent_package (parent_package calling_module) =? "");
    cbn [negb]; rewrite ?append_assoc; reflexivity.
Qed.

(** X16: one leading [../] of the config path is one package up: the
    search path of a module with [../p] is the search path of its parent
    package with [p]. *)
Theorem compute_search_path_dir_parent (calling_module config_path : string) :
  sep <> dot ->
  compute_search_path_dir sep realpath dirname path_join normpath
    None (Some calling_module) (Some ("../" ++ config_path)%string)
  = compute_search_path_dir sep realpath dirname path_join normpath
      None (Some (parent_package calling_module)) (Some config_path).
Proof.
  intros Hsep. unfold compute_search_path_dir.
  assert (Hrep : replace_char sep "/" ("../" ++ config_path)
                 = ("../" ++ replace_char sep "/" config_path)%string).
  { cbn [append replace_char].
    assert (Hd : Ascii.eqb "." sep = false).
    { apply Ascii.eqb_neq. intros E. apply Hsep. symmetry. exact E. }
    rewrite Hd. destruct (Ascii.eqb "/" sep); reflexivity. }
  rewrite Hrep.
  set (q := replace_char sep "/" config_path).
  change (String.length ("../" ++ q)) with (S (S (S (String.length q)))).
  rewrite strip_parent_dirs_step.
  assert (Hp : prefix "../" ("../" ++ q) = true).
  { cbn. destruct q; reflexivity. }
  rewrite Hp.
  change (str_drop (String.length "../") ("../" ++ q)) with q.
  rewrite (@strip_parent_dirs_rounds (S (S (String.length q))) (String.length q));
    [reflexivity|lia|lia].
Qed.

End SearchPathFacts.

Lemma compute_search_path_dir_parent_witness :
  compute_search_path_dir "/" (fun p => p) (fun p => p) (fun a b => (a ++ b)%string)
    (fun p => p) None (Some "company.app.tool.main") (Some "../conf/db")
  = compute_search_path_dir "/" (fun p => p) (fun p => p) (fun a b => (a ++ b)%string)
      (fun p => p) None (Some "company.app.tool") (Some "conf/db").
Proof.
  apply (@compute_search_path_dir_parent "/" (fun p => p) (fun p => p)
           (fun a b => (a ++ b)%string) (fun p => p)
           "company.app.tool.main" "conf/db").
  discriminate.
Defined.

Example compute_search_path_dir_run :
  compute_search_path_dir "/" (fun p => p) (fun p => p) (fun a b => (a ++ b)%string)
    (fun p => p) None (Some "company.app.tool.main") (Some "../conf/db")
  = Some "pkg://company.app/conf/db"
  /\ compute_search_path_dir "/" (fun p => p) (fun p => p) (fun a b => (a ++ b)%string)
       (fun p => p) None (Some "main") (Some "../../conf")
     = Some "pkg://conf"
  /\ compute_search_path_dir "/" (fun p => p) (fun p => p) (fun a b => (a ++ b)%string)
       (fun p => p) None (Some "pkg.main") None
     = Some "pkg://pkg".
Proof. repeat split. Qed.

(** ** Targets as strings *)

Lemma lookup_assign_same (k : string) (v : node) (d : dict) :
  lookup k (assign k v d) = Some v.
Proof.
  induction d as [|[k' v'] d IH]; cbn [assign lookup].
  - rewrite String.eqb_refl. reflexivity.
  - destruct (k' =? k) eqn:E; cbn [lookup]; rewrite E; [reflexivity|exact IH].
Qed.

Lemma assign_same (k : string) (v : node) (d : dict) :
  lookup k d = Some v -> assign k v d = d.
Proof.
  induction d as [|[k' v'] d IH]; [discriminate|].
  cbn [lookup assign]. destruct (k' =? k).
  - intros H. injection H as ->. reflexivity.
  - intros H. rewrite (IH H). reflexivity.
Qed.

Lemma dict_depth_assign (k : string) (v : node) (d : dict) :
  dict_depth (assign k v d) <= Nat.max (node_depth v) (dict_depth d).
Proof.
  induction d as [|[k' v'] d IH]; cbn [assign].
  - rewrite dict_depth_cons. lia.
  - destruct (k' =? k); rewrite !dict_depth_cons; lia.
Qed.


(** A loop over the values that ran to its end ran its body to the end
    on every value, and kept the keys. *)
Lemma map_values_return (f : node -> M node) (d d' : dict) :
  map_values f d = Some (Return d') ->
  Forall2 (fun kv kv' => fst kv' = fst kv /\ f (snd kv) = Some (Return (snd kv'))) d d'.
Proof.
  revert d'. induction d as [|[k v] d IH]; intros d' H.
  - cbn in H. injection H as <-. constructor.
  - cbn [map_values] in H.
    apply bind_return in H. destruct H as (v' & Hv & H).
    apply bind_return in H. destruct H as (rest & Hrest & H).
    cbn in H. injection H as <-.
    constructor; [split; [reflexivity|exact Hv]|]. apply IH. exact Hrest.
Qed.

Lemma map_elems_return (f : node -> M node) (l l' : list node) :
  map_elems f l = Some (Return l') ->
  Forall2 (fun e e' => f e = Some (Return e')) l l'.
Proof.
  revert l'. induction l as [|e l IH]; intros l' H.
  - cbn in H. injection H as <-. constructor.
  - cbn [map_elems] in H.
    apply bind_return in H. destruct H as (e' & He & H).
    apply bind_return in H. destruct H as (rest & Hrest & H).
    cbn in H. injection H as <-.
    constructor; [exact He|]. apply IH. exact Hrest.
Qed.





Lemma map_values_returns (f : node -> M node) (d : dict) :
  (forall v, In v (map snd d) -> exists v', f v = Some (Return v')) ->
  exists d', map_values f d = Some (Return d').
Proof.
  induction d as [|[k1 v1] d IH]; intros H; [eexists; reflexivity|].
  cbn [map_values]. destruct (H v1) as [v1' Hv]; [left; reflexivity|]. rewrite Hv.
  destruct IH as [rest Hr]; [intros v Hin; apply H; right; exact Hin|].
  cbn [bind]. rewrite Hr. eexists. reflexivity.
Qed.

Lemma map_elems_returns (f : node -> M node) (l : list node) :
  (forall e, In e l -> exists e', f e = Some (Return e')) ->
  exists l', map_elems f l = Some (Return l').
Proof.
  induction l as [|e l IH]; intros H; [eexists; reflexivity|].
  cbn [map_elems]. destruct (H e) as [e' He]; [left; reflexivity|]. rewrite He.
  destruct IH as [rest Hr]; [intros x Hin; apply H; right; exact Hin|].
  cbn [bind]. rewrite Hr. eexists. reflexivity.
Qed.

Lemma map_values_fixed (f : node -> M node) (d : dict) :
  (forall v, In v (map snd d) -> f v = Some (Return v)) ->
  map_values f d = Some (Return d).
Proof.
  induction d as [|[k1 v1] d IH]; intros H; [reflexivity|].
  cbn [map_values]. rewrite (H v1) by (left; reflexivity). cbn [bind].
  rewrite IH; [reflexivity|]. intros v Hin. apply H. right. exact Hin.
Qed.

Lemma map_elems_fixed (f : node -> M node) (l : list node) :
  (forall e, In e l -> f e = Some (Return e)) -> map_elems f l = Some (Return l).
Proof.
  induction l as [|e l IH]; intros H; [reflexivity|].
  cbn [map_elems]. rewrite (H e) by (left; reflexivity). cbn [bind].
  rewrite IH; [reflexivity|]. intros x Hin. apply H. right. exact Hin.
Qed.

Lemma depth_of_value (v : node) (d : dict) :
  In v (map snd d) -> node_depth v <= dict_depth d.
Proof.
  intros Hin. apply in_map_iff in Hin. destruct Hin as ([k v'] & E & Hin).
  cbn [snd] in E. subst v'. eapply depth_of_item. exact Hin.
Qed.

Lemma depth_of_elem (e : node) (l : list node) :
  In e l -> node_depth e <= list_max (map node_depth l).
Proof. intros Hin. apply list_max_bounds. apply in_map. exact Hin. Qed.



Lemma map_values_all (f : node -> M node) (P : node -> bool) (d d' : dict) :
  map_values f d = Some (Return d') ->
  (forall v v', f v = Some (Return v') -> P v' = true) ->
  forallb (fun kv => P (snd kv)) d' = true.
Proof.
  intros H HP. apply map_values_return in H.
  induction H as [|[k v] [k' v'] l l' [_ Hv] _ IH]; [reflexivity|].
  cbn [snd] in Hv. cbn [forallb snd]. rewrite (HP _ _ Hv). exact IH.
Qed.

Lemma map_elems_all (f : node -> M node) (P : node -> bool) (l l' : list node) :
  map_elems f l = Some (Return l') ->
  (forall e e', f e = Some (Return e') -> P e' = true) ->
  forallb P l' = true.
Proof.
  intros H HP. apply map_elems_return in H.
  induction H as [|e e' l l' He _ IH]; [reflexivity|].
  cbn [forallb]. rewrite (HP _ _ He). exact IH.
Qed.

Lemma map_values_depth (f : node -> M node) (d d' : dict) :
  map_values f d = Some (Return d') ->
  (forall v v', f v = Some (Return v') -> node_depth v' <= node_depth v) ->
  dict_depth d' <= dict_depth d.
Proof.
  intros H HP. apply map_values_return in H.
  induction H as [|[k v] [k' v'] l l' [_ Hv] _ IH]; [lia|].
  cbn [snd] in Hv. rewrite !dict_depth_cons. pose proof (HP _ _ Hv). lia.
Qed.

Lemma map_elems_depth (f : node -> M node) (l l' : list node) :
  map_elems f l = Some (Return l') ->
  (forall e e', f e = Some (Return e') -> node_depth e' <= node_depth e) ->
  list_max (map node_depth l') <= list_max (map node_depth l).
Proof.
  intros H HP. apply map_elems_return in H.
  induction H as [|e e' l l' He _ IH]; [lia|].
  change (list_max (map node_depth (e' :: l')))
    with (Nat.max (node_depth e') (list_max (map node_depth l'))).
  change (list_max (map node_depth (e :: l)))
    with (Nat.max (node_depth e) (list_max (map node_depth l))).
  pose proof (HP _ _ He). lia.
Qed.

Section TargetStringsFacts.

Variable module_of : pyobj -> string.
Variable name_of : pyobj -> string.
Variable qualname_of : pyobj -> option string.

Lemma convert_target_not_constructible (t t' : node) :
  _convert_target_to_string module_of name_of qualname_of t = Return t' ->
  is_constructible_object t' = false.
Proof.
  destruct t; cbn [_convert_target_to_string]; intros H;
    try (injection H as <-; reflexivity).
  destruct (obj_is_type o) eqn:Hty; [injection H as <-; reflexivity|].
  destruct (obj_callable o) eqn:Hca.
  - destruct (qualname_of o); [injection H as <-; reflexivity|discriminate].
  - injection H as <-. cbn [is_constructible_object]. unfold constructible.
    rewrite Hty, Hca. reflexivity.
Qed.

Lemma convert_target_plain (t : node) :
  is_constructible_object t = false ->
  _convert_target_to_string module_of name_of qualname_of t = Return t.
Proof.
  destruct t; try reflexivity. cbn [is_constructible_object _convert_target_to_string].
  unfold constructible. destruct (obj_is_type o), (obj_callable o);
    try discriminate; reflexivity.
Qed.

Lemma convert_target_depth (t t' : node) :
  _convert_target_to_string module_of name_of qualname_of t = Return t' ->
  node_depth t' <= node_depth t.
Proof.
  destruct t; cbn [_convert_target_to_string]; intros H;
    try (injection H as <-; lia).
  destruct (obj_is_type o); [injection H as <-; cbn; lia|].
  destruct (obj_callable o); [|injection H as <-; lia].
  destruct (qualname_of o); [injection H as <-; cbn; lia|discriminate].
Qed.

(** The one exception of the conversion of a target: the callable that
    has no [__qualname__]. *)
Lemma convert_target_raise (t : node) (e : exn) :
  _convert_target_to_string module_of name_of qualname_of t = Raise e ->
  e = AttributeError "__qualname__"
  /\ exists o, t = NObj o /\ obj_is_type o = false /\ obj_callable o = true
               /\ qualname_of o = None.
Proof.
  destruct t; cbn [_convert_target_to_string]; intros H; try discriminate.
  destruct (obj_is_type o) eqn:Hty; [discriminate|].
  destruct (obj_callable o) eqn:Hca; [|discriminate].
  destruct (qualname_of o) eqn:Hq; [discriminate|].
  injection H as <-. split; [reflexivity|]. exists o. auto.
Qed.

Lemma convert_target_returns (t : node) :
  (forall o, obj_is_type o = false -> obj_callable o = true -> qualname_of o <> None) ->
  exists t', _convert_target_to_string module_of name_of qualname_of t = Return t'.
Proof.
  intros Hq. destruct (_convert_target_to_string module_of name_of qualname_of t)
    as [t'|e] eqn:H; [eauto|].
  apply convert_target_raise in H. destruct H as (_ & o & _ & Hty & Hca & Hn).
  destruct (Hq o Hty Hca Hn).
Qed.

(** The first statement of the mapping branch: the assignment to
    [d["_target_"]]. *)
Lemma own_target_return (items items1 : dict) :
  match lookup "_target_" items with
  | Some t =>
      t' <- Some (_convert_target_to_string module_of name_of qualname_of t) ;;
      ret (assign "_target_" t' items)
  | None => ret items
  end = Some (Return items1) ->
  match lookup "_target_" items with
  | Some t =>
      exists t', _convert_target_to_string module_of name_of qualname_of t = Return t'
                 /\ items1 = assign "_target_" t' items
  | None => items1 = items
  end.
Proof.
  destruct (lookup "_target_" items) as [t|]; intros H.
  - destruct (_convert_target_to_string module_of name_of qualname_of t) as [t'|e]
      eqn:Ht; cbn [bind ret] in H; [|discriminate].
    injection H as <-. exists t'. split; reflexivity.
  - cbn [ret] in H. injection H as <-. reflexivity.
Qed.



Lemma own_target_depth (items items1 : dict) :
  match lookup "_target_" items with
  | Some t =>
      t' <- Some (_convert_target_to_string module_of name_of qualname_of t) ;;
      ret (assign "_target_" t' items)
  | None => ret items
  end = Some (Return items1) ->
  dict_depth items1 <= dict_depth items.
Proof.
  intros H. apply own_target_return in H.
  destruct (lookup "_target_" items) as [t|] eqn:Hl; [|subst items1; lia].
  destruct H as (t' & Ht & ->).
  pose proof (dict_depth_assign "_target_" t' items).
  pose proof (convert_target_depth _ Ht).
  apply lookup_In in Hl. apply depth_of_item in Hl. lia.
Qed.

(** The walk makes an object of nothing that was none. *)
Lemma convert_container_keeps_plain_value (fuel : nat) (v v' : node) :
  _convert_container_targets_to_strings module_of name_of qualname_of fuel v
  = Some (Return v') ->
  is_constructible_object v = false ->
  is_constructible_object v' = false.
Proof.
  destruct fuel as [|fuel]; [discriminate|].
  cbn [_convert_container_targets_to_strings].
  destruct v; intros H Hv; try (cbn [ret] in H; injection H as <-; exact Hv).
  - apply bind_return in H. destruct H as (items1 & _ & H).
    apply bind_return in H. destruct H as (items2 & _ & H).
    cbn [ret] in H. injection H as <-. reflexivity.
  - apply bind_return in H. destruct H as (elems' & _ & H).
    cbn [ret] in H. injection H as <-. reflexivity.
Qed.




Lemma convert_container_makes_plain (fuel : nat) :
  forall d d',
    _convert_container_targets_to_strings module_of name_of qualname_of fuel d
    = Some (Return d') ->
    targets_are_plain d' = true.
Proof.
  induction fuel as [|fuel IH]; intros d d' H; [discriminate|].
  cbn [_convert_container_targets_to_strings] in H.
  destruct d as [| | | | | |tag items|elems];
    try (cbn [ret] in H; injection H as <-; reflexivity).
  - apply bind_return in H. destruct H as (items1 & H1 & H).
    apply bind_return in H. destruct H as (items2 & H2 & H).
    cbn [ret] in H. injection H as <-. cbn [targets_are_plain].
    apply andb_true_intro. split.
    + pose proof (@lookup_same_keys
                    (fun v v' =>
                       _convert_container_targets_to_strings
                         module_of name_of qualname_of fuel v = Some (Return v'))
                    "_target_" _ _ (@map_values_return _ _ _ H2)) as Hl.
      cbn beta in Hl.
      assert (Hp : match lookup "_target_" items1 with
                   | Some t => is_constructible_object t = false
                   | None => True
                   end).
      { apply own_target_return in H1.
        destruct (lookup "_target_" items) as [t|] eqn:E.
        - destruct H1 as (t' & Ht & ->). rewrite lookup_assign_same.
          apply (convert_target_not_constructible _ Ht).
        - subst items1. rewrite E. exact I. }
      destruct (lookup "_target_" items1) as [t|].
      * destruct Hl as (t' & -> & Ht).
        rewrite (convert_container_keeps_plain_value _ _ Ht Hp). reflexivity.
      * rewrite Hl. reflexivity.
    + apply (@map_values_all _ targets_are_plain _ _ H2).
      intros v v' Hv. apply (IH v v' Hv).
  - apply bind_return in H. destruct H as (elems' & H2 & H).
    cbn [ret] in H. injection H as <-. cbn [targets_are_plain].
    apply (@map_elems_all _ targets_are_plain _ _ H2).
    intros e e' He. cbn beta in He. destruct (is_config e) eqn:Hc.
    + apply (IH e e' He).
    + cbn [ret] in He. injection He as <-. destruct e; try reflexivity; discriminate.
Qed.

(** A tree whose targets are plain already is left as it is. *)
Lemma convert_container_fixed (fuel : nat) :
  forall d, node_depth d < fuel -> targets_are_plain d = true ->
    _convert_container_targets_to_strings module_of name_of qualname_of fuel d
    = Some (Return d).
Proof.
  induction fuel as [|fuel IH]; intros d Hd Hp; [lia|].
  cbn [_convert_container_targets_to_strings].
  destruct d as [| | | | | |tag items|elems]; try reflexivity.
  - cbn [node_depth] in Hd. fold (dict_depth items) in Hd.
    cbn [targets_are_plain] in Hp. apply andb_prop in Hp. destruct Hp as [Ht Hall].
    assert (H1 : match lookup "_target_" items with
                 | Some t =>
                     t' <- Some (_convert_target_to_string
                                   module_of name_of qualname_of t) ;;
                     ret (assign "_target_" t' items)
                 | None => ret items
                 end = Some (Return items)).
    { destruct (lookup "_target_" items) as [t|] eqn:E; [|reflexivity].
      rewrite convert_target_plain by (apply negb_true_iff; exact Ht).
      cbn [bind ret]. rewrite (assign_same _ _ E). reflexivity. }
    rewrite H1. cbn [bind]. rewrite map_values_fixed; [reflexivity|].
    intros v Hin. apply IH.
    + apply depth_of_value in Hin. lia.
    + rewrite forallb_forall in Hall. apply in_map_iff in Hin.
      destruct Hin as (kv & <- & Hin). apply Hall. exact Hin.
  - cbn [node_depth] in Hd. cbn [targets_are_plain] in Hp.
    rewrite map_elems_fixed; [reflexivity|].
    intros e Hin. destruct (is_config e); [|reflexivity]. apply IH.
    + apply depth_of_elem in Hin. lia.
    + rewrite forallb_forall in Hp. apply Hp. exact Hin.
Qed.

Lemma convert_container_depth (fuel : nat) :
  forall d d',
    _convert_container_targets_to_strings module_of name_of qualname_of fuel d
    = Some (Return d') ->
    node_depth d' <= node_depth d.
Proof.
  induction fuel as [|fuel IH]; intros d d' H; [discriminate|].
  cbn [_convert_container_targets_to_strings] in H.
  destruct d as [| | | | | |tag items|elems];
    try (cbn [ret] in H; injection H as <-; lia).
  - apply bind_return in H. destruct H as (items1 & H1 & H).
    apply bind_return in H. destruct H as (items2 & H2 & H).
    cbn [ret] in H. injection H as <-. cbn [node_depth].
    fold (dict_depth items2). fold (dict_depth items).
    apply own_target_depth in H1.
    pose proof (@map_values_depth _ _ _ H2 (fun v v' Hv => IH v v' Hv)). lia.
  - apply bind_return in H. destruct H as (elems' & H2 & H).
    cbn [ret] in H. injection H as <-. cbn [node_depth].
    assert (H3 : list_max (map node_depth elems') <= list_max (map node_depth elems)).
    { apply (@map_elems_depth _ _ _ H2). intros e e' He. cbn beta in He.
      destruct (is_config e); [apply (IH e e' He)|].
      cbn [ret] in He. injection He as <-. lia. }
    lia.
Qed.



End TargetStringsFacts.

Section TargetStringsProperties.

Variable module_of : pyobj -> string.
Variable name_of : pyobj -> string.
Variable qualname_of : pyobj -> option string.


(** X18: the conversion is idempotent: run on what it left, it leaves
    that again. *)
Theorem convert_container_targets_idempotent (fuel : nat) (d d' : node) :
  node_depth d < fuel ->
  _convert_container_targets_to_strings module_of name_of qualname_of fuel d
  = Some (Return d') ->
  _convert_container_targets_to_strings module_of name_of qualname_of fuel d'
  = Some (Return d').
Proof.
  intros Hd H. apply convert_container_fixed.
  - pose proof (convert_container_depth _ _ _ _ _ H). lia.
  - apply (convert_container_makes_plain _ _ _ _ _ H).
Qed.


End TargetStringsProperties.


Lemma convert_container_targets_idempotent_witness :
  _convert_container_targets_to_strings
    (fun _ => "pkg") (fun o => obj_name o) (fun o => Some (obj_name o)) 3
    (NDict None [("_target_", NStr "pkg.pkg.Foo"); ("x", NInt 1)])
  = Some (Return (NDict None [("_target_", NStr "pkg.pkg.Foo"); ("x", NInt 1)])).
Proof.
  apply (@convert_container_targets_idempotent
           (fun _ => "pkg") (fun o => obj_name o) (fun o => Some (obj_name o)) 3
           (NDict None [("_target_", NObj toy_Foo); ("x", NInt 1)])
           (NDict None [("_target_", NStr "pkg.pkg.Foo"); ("x", NInt 1)])).
  - cbn. lia.
  - reflexivity.
Defined.


(** A [functools.partial] as a target: the conversion raises where it
    reads [__qualname__]; a function and a class beside it come out as
    strings. *)
Example convert_container_targets_three_callables :
  let qualname_of := fun o => if obj_name o =? "functools.partial(f)" then None
                              else Some (obj_name o) in
  let partial := mk_pyobj "functools.partial(f)" false true true in
  _convert_container_targets_to_strings (fun _ => "m") obj_name qualname_of 3
    (NDict None [("_target_", NObj partial)])
  = Some (Raise (AttributeError "__qualname__"))
  /\ _convert_container_targets_to_strings (fun _ => "m") obj_name qualname_of 3
       (NDict None [("_target_", NObj toy_helper);
                    ("a", NDict None [("_target_", NObj toy_Foo)])])
     = Some (Return (NDict None [("_target_", NStr "m.pkg.helper");
                                 ("a", NDict None [("_target_", NStr "m.pkg.Foo")])]))
  /\ _convert_container_targets_to_strings (fun _ => "m") obj_name qualname_of 3
       (NDict None [("a", NList [NDict None [("_target_", NObj partial)]])])
     = Some (Raise (AttributeError "__qualname__")).
Proof. repeat split. Qed.

(** ** Reporting an exception *)

Lemma strip_hydra_frames_found (search_max : nat) :
  forall tb left rest,
    strip_hydra_frames search_max tb = (left, rest) ->
    left <> 0 -> rest <> [] ->
    exists pre job,
      tb = (pre ++ job :: rest)%list
      /\ is_run_job job = true
      /\ forallb (fun entry => negb (is_run_job entry)) pre = true
      /\ List.length pre + 1 + left = search_max.
Proof.
  induction search_max as [|n IH]; intros tb left rest H Hl Hr.
  - cbn in H. injection H as <- <-. congruence.
  - cbn [strip_hydra_frames] in H. destruct tb as [|entry next].
    + injection H as <- <-. congruence.
    + destruct (fr_function entry =? "run_job") eqn:E.
      * injection H as <- <-. exists [], entry.
        split; [reflexivity|]. split; [exact E|]. split; [reflexivity|cbn; lia].
      * destruct (IH next left rest H Hl Hr) as (pre & job & -> & Hj & Hpre & Hlen).
        exists (entry :: pre), job. split; [reflexivity|]. split; [exact Hj|].
        split; [|cbn [List.length]; lia].
        cbn [forallb]. unfold is_run_job at 1. rewrite E. exact Hpre.
Qed.

Lemma strip_hydra_frames_not_found (search_max : nat) :
  forall tb,
    forallb (fun entry => negb (is_run_job entry)) (firstn (search_max - 1) tb) = true ->
    fst (strip_hydra_frames search_max tb) = 0
    \/ snd (strip_hydra_frames search_max tb) = [].
Proof.
  induction search_max as [|n IH]; intros tb H; [left; reflexivity|].
  cbn [strip_hydra_frames]. destruct tb as [|entry next]; [right; reflexivity|].
  destruct n as [|n].
  - destruct (fr_function entry =? "run_job"); left; reflexivity.
  - replace (S (S n) - 1) with (S n) in H by lia. cbn [firstn forallb] in H.
    apply andb_prop in H. destruct H as [He Hrest].
    unfold is_run_job in He. apply negb_true_iff in He. rewrite He.
    apply IH. replace (S n - 1) with n by lia. exact Hrest.
Qed.

Lemma count_frames_spec (tb : traceback) :
  forall k num_frames,
    count_frames tb k = Some num_frames ->
    exists kept post,
      tb = (kept ++ post)%list
      /\ num_frames = k + List.length kept
      /\ forallb outside_omegaconf kept = true
      /\ match post with
         | [] => True
         | entry :: _ => in_omegaconf entry = true
         end.
Proof.
  induction tb as [|entry next IH]; intros k nf H.
  - injection H as <-. exists [], []. repeat split. cbn. lia.
  - cbn [count_frames] in H. destruct (fr_module entry) as [name|] eqn:Hm;
      [|discriminate].
    destruct (prefix "omegaconf." name) eqn:Hp.
    + injection H as <-. exists [], (entry :: next).
      repeat split; [cbn; lia|]. unfold in_omegaconf. rewrite Hm. exact Hp.
    + destruct (IH (S k) nf H) as (kept & post & -> & -> & Hk & Hpost).
      exists (entry :: kept), post. split; [reflexivity|].
      split; [cbn [List.length]; lia|]. split; [|exact Hpost].
      cbn [forallb]. unfold outside_omegaconf at 1. rewrite Hm, Hp. exact Hk.
Qed.

Lemma copy_frames_spec (tb : traceback) :
  forall added num_frames,
    copy_frames tb added num_frames
    = if Nat.ltb added num_frames && Nat.leb (num_frames - added) (List.length tb)
      then Some (firstn (num_frames - added) tb)
      else None.
Proof.
  induction tb as [|entry next IH]; intros added nf.
  - cbn [copy_frames List.length].
    destruct (Nat.ltb added nf) eqn:E; [|reflexivity].
    apply Nat.ltb_lt in E. cbn [andb].
    replace (Nat.leb (nf - added) 0) with false; [reflexivity|].
    symmetry. apply Nat.leb_gt. lia.
  - cbn [copy_frames List.length]. unfold is_last_frame.
    destruct nf as [|m].
    + rewrite IH. cbn [Nat.ltb Nat.leb andb]. reflexivity.
    + destruct (Nat.eqb added m) eqn:E.
      * apply Nat.eqb_eq in E. subst m.
        replace (Nat.ltb added (S added)) with true
          by (symmetry; apply Nat.ltb_lt; lia).
        replace (S added - added) with 1 by lia. reflexivity.
      * apply Nat.eqb_neq in E. rewrite IH.
        destruct (Nat.ltb added (S m)) eqn:E1.
        -- apply Nat.ltb_lt in E1.
           replace (Nat.ltb (S added) (S m)) with true
             by (symmetry; apply Nat.ltb_lt; lia).
           cbn [andb].
           replace (S m - added) with (S (S m - S added)) by lia.
           cbn [firstn].
           replace (Nat.leb (S (S m - S added)) (S (List.length next)))
             with (Nat.leb (S m - S added) (List.length next)) by reflexivity.
           destruct (Nat.leb (S m - S added) (List.length next)); reflexivity.
        -- apply Nat.ltb_ge in E1.
           replace (Nat.ltb (S added) (S m)) with false
             by (symmetry; apply Nat.ltb_ge; lia).
           reflexivity.
Qed.

Section ReportFacts.

Variable V : Type.
Variable environ : string -> option string.
Variable linesep : string.

(** X20: an exception never becomes a value: the call returns exactly
    when [func] returned, with its value; and it raises the exception of
    [func] again exactly when HYDRA_FULL_ERROR is set to "1". *)
Theorem run_and_report_passes_values (func : call_result V) :
  (forall v, run_and_report environ linesep func = Returned v <-> func = FReturn v)
  /\ (forall ex, run_and_report environ linesep func = Reraised ex
                 <-> func = FRaise ex /\ environ "HYDRA_FULL_ERROR" = Some "1").
Proof.
  unfold run_and_report, _is_env_set. split.
  - intros v. destruct func as [v0|ex]; [split; congruence|].
    split; [|discriminate].
    destruct (environ "HYDRA_FULL_ERROR") as [value|];
      [destruct (value =? "1")|]; try discriminate;
      (destruct (ex_is_compact ex); [discriminate|];
       destruct (strip_hydra_frames 10 (ex_traceback ex)) as [m tb];
       destruct (Nat.eqb m 0 || match tb with [] => true | _ => false end);
       [discriminate|];
       destruct (count_frames tb 0) as [nf|]; [|discriminate];
       destruct (copy_frames tb 0 nf); discriminate).
  - intros ex0. destruct func as [v0|ex].
    { split; [discriminate|]. intros [H _]. discriminate. }
    destruct (environ "HYDRA_FULL_ERROR") as [value|] eqn:Henv.
    + destruct (value =? "1") eqn:E.
      * apply String.eqb_eq in E. subst value. split.
        -- intros H. injection H as <-. split; reflexivity.
        -- intros [H _]. injection H as <-. reflexivity.
      * apply String.eqb_neq in E. split.
        -- destruct (ex_is_compact ex); [discriminate|].
           destruct (strip_hydra_frames 10 (ex_traceback ex)) as [m tb].
           destruct (Nat.eqb m 0 || match tb with [] => true | _ => false end);
             [discriminate|].
           destruct (count_frames tb 0) as [nf|]; [|discriminate].
           destruct (copy_frames tb 0 nf); discriminate.
        -- intros [_ H]. congruence.
    + split.
      * destruct (ex_is_compact ex); [discriminate|].
        destruct (strip_hydra_frames 10 (ex_traceback ex)) as [m tb].
        destruct (Nat.eqb m 0 || match tb with [] => true | _ => false end);
          [discriminate|].
        destruct (count_frames tb 0) as [nf|]; [|discriminate].
        destruct (copy_frames tb 0 nf); discriminate.
      * intros [_ H]. discriminate.
Qed.

(** X21: a traceback that is printed cut is a stretch of the
    traceback of the exception: it starts right after the first entry
    of [run_job], which is among the first nine, it is not empty, it
    has no entry of OmegaConf, and it stops at the end or before the
    first entry of OmegaConf. The hint follows and the exit code is 1. *)
Theorem run_and_report_sanitized_stretch (ex : py_exception) (code : nat)
    (final_tb : traceback) (err : list stderr_event) :
  run_and_report (V := V) environ linesep (FRaise ex)
  = Exited code (PrintException final_tb :: err) ->
  exists pre job post,
    ex_traceback ex = (pre ++ job :: final_tb ++ post)%list
    /\ is_run_job job = true
    /\ forallb (fun entry => negb (is_run_job entry)) pre = true
    /\ List.length pre <= 8
    /\ final_tb <> []
    /\ forallb outside_omegaconf final_tb = true
    /\ match post with
       | [] => True
       | entry :: _ => in_omegaconf entry = true
       end
    /\ code = 1 /\ err = [Write full_error_hint].
Proof.
  unfold run_and_report. intros H.
  destruct (_is_env_set environ "HYDRA_FULL_ERROR"); [discriminate|].
  destruct (ex_is_compact ex); [discriminate|].
  destruct (strip_hydra_frames 10 (ex_traceback ex)) as [m tb] eqn:Hstrip.
  destruct (Nat.eqb m 0) eqn:Hm; [discriminate|]. cbn [orb] in H.
  destruct tb as [|entry next] eqn:Htb; [discriminate|]. rewrite <- Htb in *.
  apply Nat.eqb_neq in Hm.
  destruct (@strip_hydra_frames_found 10 (ex_traceback ex) m tb Hstrip Hm)
    as (pre & job & Hsplit & Hjob & Hpre & Hlen); [congruence|].
  destruct (count_frames tb 0) as [nf|] eqn:Hcount; [|discriminate].
  rewrite copy_frames_spec in H.
  destruct (count_frames_spec tb 0 Hcount) as (kept & post & Hk & Hnf & Hout & Hpost).
  cbn [Nat.add] in Hnf. subst nf.
  destruct (Nat.ltb 0 (List.length kept)) eqn:Hpos; [|discriminate].
  apply Nat.ltb_lt in Hpos. cbn [andb] in H. rewrite Nat.sub_0_r in H.
  destruct (Nat.leb (List.length kept) (List.length tb)); [|discriminate].
  injection H as <- <- <-.
  assert (Hfirst : firstn (List.length kept) tb = kept).
  { rewrite Hk. rewrite firstn_app, Nat.sub_diag, firstn_all.
    cbn [firstn]. apply app_nil_r. }
  rewrite Hfirst.
  exists pre, job, post. rewrite Hsplit, Hk.
  repeat split; try assumption; try lia.
  intros ->. cbn in Hpos. lia.
Qed.

(** X22: the handler itself fails when the entry right after [run_job]
    is one of OmegaConf: no entry is counted, the copying loop never
    meets its exit test and reads past the end of the traceback, so the
    call ends in an AttributeError instead of a report. *)
Theorem run_and_report_crashes_on_omegaconf_first (ex : py_exception)
    (pre : traceback) (job entry : frame) (rest : traceback) :
  _is_env_set environ "HYDRA_FULL_ERROR" = false ->
  ex_is_compact ex = false ->
  ex_traceback ex = (pre ++ job :: entry :: rest)%list ->
  forallb (fun e => negb (is_run_job e)) pre = true ->
  List.length pre <= 8 ->
  is_run_job job = true ->
  in_omegaconf entry = true ->
  run_and_report (V := V) environ linesep (FRaise ex) = Crashed HandlerAttributeError.
Proof.
  intros Henv Hc Htb Hpre Hlen Hjob Hent.
  unfold run_and_report. rewrite Henv, Hc, Htb.
  assert (Hstrip : forall n p,
             forallb (fun e => negb (is_run_job e)) p = true ->
             List.length p < n ->
             strip_hydra_frames n (p ++ job :: entry :: rest)%list
             = (n - List.length p - 1, entry :: rest)).
  { induction n as [|n IHn]; intros p Hp Hl; [lia|].
    destruct p as [|e p]; cbn [app strip_hydra_frames List.length].
    - unfold is_run_job in Hjob. rewrite Hjob. f_equal. lia.
    - cbn [forallb] in Hp. apply andb_prop in Hp. destruct Hp as [He Hp].
      unfold is_run_job in He. apply negb_true_iff in He. rewrite He.
      cbn [List.length] in Hl. rewrite IHn by (assumption || lia). f_equal. }
  rewrite (Hstrip 10 pre Hpre) by lia.
  replace (Nat.eqb (10 - List.length pre - 1) 0) with false
    by (symmetry; apply Nat.eqb_neq; lia).
  cbn [orb count_frames]. unfold in_omegaconf in Hent.
  destruct (fr_module entry) as [name|]; [|discriminate].
  rewrite Hent. rewrite copy_frames_spec. reflexivity.
Qed.

(** X23: without an entry of [run_job] among the first nine the
    traceback is printed whole, and the call exits with 1 without the
    hint; an entry of [run_job] in tenth place or later is not seen. *)
Theorem run_and_report_prints_whole_traceback (ex : py_exception) :
  _is_env_set environ "HYDRA_FULL_ERROR" = false ->
  ex_is_compact ex = false ->
  forallb (fun e => negb (is_run_job e)) (firstn 9 (ex_traceback ex)) = true ->
  run_and_report (V := V) environ linesep (FRaise ex) = Exited 1 [PrintExc].
Proof.
  intros Henv Hc Hno. unfold run_and_report. rewrite Henv, Hc.
  pose proof (@strip_hydra_frames_not_found 10 (ex_traceback ex) Hno) as H.
  destruct (strip_hydra_frames 10 (ex_traceback ex)) as [m tb]. cbn [fst snd] in H.
  destruct H as [-> | ->]; [reflexivity|].
  destruct (Nat.eqb m 0); reflexivity.
Qed.

End ReportFacts.

Example run_and_report_run :
  run_and_report (V := nat) no_environ "" (FRaise (example_exception example_traceback))
  = Exited 1
      [PrintException [mk_frame "my_app" (Some "__main__") 12;
                       mk_frame "helper" (Some "mylib.tools") 40];
       Write full_error_hint].
Proof. reflexivity. Qed.

Lemma run_and_report_sanitized_stretch_witness :
  exists pre job post,
    ex_traceback (example_exception example_traceback)
    = (pre ++ job :: [mk_frame "my_app" (Some "__main__") 12;
                      mk_frame "helper" (Some "mylib.tools") 40] ++ post)%list
    /\ is_run_job job = true
    /\ forallb (fun entry => negb (is_run_job entry)) pre = true
    /\ List.length pre <= 8
    /\ [mk_frame "my_app" (Some "__main__") 12;
        mk_frame "helper" (Some "mylib.tools") 40] <> []
    /\ forallb outside_omegaconf
         [mk_frame "my_app" (Some "__main__") 12;
          mk_frame "helper" (Some "mylib.tools") 40] = true
    /\ match post with
       | [] => True
       | entry :: _ => in_omegaconf entry = true
       end
    /\ 1 = 1 /\ [Write full_error_hint] = [Write full_error_hint].
Proof.
  apply (@run_and_report_sanitized_stretch nat no_environ ""
           (example_exception example_traceback) 1
           [mk_frame "my_app" (Some "__main__") 12;
            mk_frame "helper" (Some "mylib.tools") 40]
           [Write full_error_hint]).
  reflexivity.
Defined.

Lemma run_and_report_crashes_on_omegaconf_first_witness :
  run_and_report (V := nat) no_environ ""
    (FRaise (example_exception
               [mk_frame "run" (Some "hydra._internal.hydra") 100;
                mk_frame "run_job" (Some "hydra.core.utils") 129;
                mk_frame "merge" (Some "omegaconf.omegaconf") 321;
                mk_frame "my_app" (Some "__main__") 12]))
  = Crashed HandlerAttributeError.
Proof.
  apply (@run_and_report_crashes_on_omegaconf_first nat no_environ ""
           (example_exception
              [mk_frame "run" (Some "hydra._internal.hydra") 100;
               mk_frame "run_job" (Some "hydra.core.utils") 129;
               mk_frame "merge" (Some "omegaconf.omegaconf") 321;
               mk_frame "my_app" (Some "__main__") 12])
           [mk_frame "run" (Some "hydra._internal.hydra") 100]
           (mk_frame "run_job" (Some "hydra.core.utils") 129)
           (mk_frame "merge" (Some "omegaconf.omegaconf") 321)
           [mk_frame "my_app" (Some "__main__") 12]);
    try reflexivity.
  cbn. lia.
Defined.

Lemma run_and_report_prints_whole_traceback_witness :
  run_and_report (V := nat) no_environ ""
    (FRaise (example_exception
               (repeat (mk_frame "wrapper" (Some "hydra.main") 1) 9
                ++ [mk_frame "run_job" (Some "hydra.core.utils") 129;
                    mk_frame "my_app" (Some "__main__") 12])%list))
  = Exited 1 [PrintExc].
Proof.
  apply (@run_and_report_prints_whole_traceback nat no_environ ""
           (example_exception
              (repeat (mk_frame "wrapper" (Some "hydra.main") 1) 9
               ++ [mk_frame "run_job" (Some "hydra.core.utils") 129;
                   mk_frame "my_app" (Some "__main__") 12])%list));
    reflexivity.
Defined.

(** ** The resolver on a name that resolves *)

Lemma firstn_skipn_last (A : Type) (l : list A) (x : A) :
  firstn (List.length l) (l ++ [x])%list = l
  /\ skipn (List.length l) (l ++ [x])%list = [x].
Proof.
  split.
  - rewrite firstn_app, Nat.sub_diag, firstn_all. cbn [firstn]. apply app_nil_r.
  - rewrite skipn_app, Nat.sub_diag, skipn_all. reflexivity.
Qed.

Section LocateResolves.

Variable world : Type.
Variable import_module : world -> string -> world * (string + pyobj).
Variable getattr : world -> pyobj -> string -> option pyobj.
Variable builtins : pyobj.

(** X24: a class or function of an importable module is found with
    one import: when the path without its last segment imports to a
    module that has the last segment as an attribute, and the attribute
    is a type or callable, the resolver returns that attribute, having
    imported that module and nothing else. *)
Theorem locate_resolves_attribute_of_module (st : istate world) (path : string)
    (package : list string) (name : string) (w' : world) (m o : pyobj) :
  segments path = (package ++ [name])%list ->
  import_module (st_world st) (join "." package) = (w', inr m) ->
  obj_truthy m = true ->
  getattr w' m name = Some o ->
  constructible o = true ->
  _locate import_module getattr builtins st path
  = (mk_istate w' (st_imports st ++ [join "." package]), Return o).
Proof.
  intros Hseg Himp Htruthy Hattr Hcons.
  unfold _locate.
  destruct (path =? "") eqn:Hp.
  { apply String.eqb_eq in Hp. subst path. cbn in Hseg.
    destruct package; discriminate. }
  fold (segments path). rewrite Hseg.
  rewrite length_app. cbn [List.length].
  replace (List.length package + 1) with (S (List.length package)) by lia.
  rewrite rev_seq_succ. cbn [search_loop].
  destruct (firstn_skipn_last package name) as [Hfirst Hskip].
  rewrite Hfirst. unfold do_import. rewrite Himp.
  cbn [truthy]. rewrite Htruthy.
  cbn [v_module v_n v_mod truthy]. rewrite Htruthy.
  rewrite Hskip. cbn [attr_loop]. unfold hasattr. cbn [st_world].
  rewrite Hattr. unfold constructible in Hcons.
  destruct (obj_is_type o); [reflexivity|].
  cbn [orb] in Hcons. rewrite Hcons. reflexivity.
Qed.

End LocateResolves.

Lemma locate_resolves_attribute_of_module_witness :
  _locate toy_import toy_getattr toy_builtins toy_start "pkg.sub.Bar"
  = (mk_istate ["pkg.sub"] (st_imports toy_start ++ [join "." ["pkg"; "sub"]]),
     Return toy_Bar).
Proof.
  apply (@locate_resolves_attribute_of_module (list string) toy_import toy_getattr
           toy_builtins toy_start "pkg.sub.Bar" ["pkg"; "sub"] "Bar" ["pkg.sub"]
           (toy_module "pkg.sub") toy_Bar); reflexivity.
Defined.

(** ** The command of a run *)

(** X25: the help flags go before the check of the commands: with
    [--help] or [--hydra-help] the help is shown whatever else is asked
    for; without them the ValueError is raised exactly when two or more
    of the five commands are given. *)
Theorem run_hydra_command_validation (args : parsed_args) :
  (arg_help args = true -> run_hydra_command args = AppHelp)
  /\ (arg_help args = false -> arg_hydra_help args = true ->
      run_hydra_command args = HydraHelp)
  /\ (arg_help args = false -> arg_hydra_help args = false ->
      (run_hydra_command args = TooManyCommands <-> 2 <= num_commands args)).
Proof.
  unfold run_hydra_command. split; [|split].
  - intros ->. reflexivity.
  - intros -> ->. reflexivity.
  - intros -> ->. cbv zeta.
    destruct (Nat.ltb 1 (num_commands args)) eqn:E.
    + apply Nat.ltb_lt in E. split; [intros _; lia|reflexivity].
    + apply Nat.ltb_ge in E. split; [|lia].
      destruct (if Nat.eqb (num_commands args) 0 then true else arg_run args);
        [discriminate|].
      destruct (arg_multirun args); [discriminate|].
      destruct (cfg_truthy (arg_cfg args)); [discriminate|].
      destruct (arg_shell_completion args); [discriminate|].
      destruct (arg_info args); discriminate.
Qed.

(** X26: with at most one command the order of the tests does not
    matter: the command run is the one asked for, a job is run when
    none is asked for, and "Command not specified" is reached only with
    an empty [cfg]. *)
Theorem run_hydra_command_selects_the_one (args : parsed_args) :
  arg_help args = false ->
  arg_hydra_help args = false ->
  num_commands args <= 1 ->
  (run_hydra_command args = RunJob <-> arg_run args = true \/ num_commands args = 0)
  /\ (run_hydra_command args = MultiRun <-> arg_multirun args = true)
  /\ (forall cfg, run_hydra_command args = ShowCfg cfg
                  <-> arg_cfg args = Some cfg /\ cfg <> "")
  /\ (run_hydra_command args = ShellCompletion <-> arg_shell_completion args = true)
  /\ (run_hydra_command args = ShowInfo <-> arg_info args = true)
  /\ (run_hydra_command args = NotSpecified <-> arg_cfg args = Some "").
Proof.
  destruct args as [help hydra_help cfg run multirun shell info].
  cbn [arg_help arg_hydra_help arg_cfg arg_run arg_multirun arg_shell_completion
       arg_info].
  intros -> -> Hnum.
  unfold run_hydra_command, num_commands in *.
  cbn [arg_help arg_hydra_help arg_cfg arg_run arg_multirun arg_shell_completion
       arg_info] in *.
  destruct cfg as [c|].
  - destruct (c =? "") eqn:Ec.
    + apply String.eqb_eq in Ec. subst c.
      destruct run, multirun, shell, info; cbn in Hnum; try lia; cbn;
        repeat split; try congruence; try discriminate; try tauto;
        try (intros [H|H]; discriminate);
        try (intros [H1 H2]; congruence).
    + pose proof Ec as Ene. apply String.eqb_neq in Ene.
      destruct run, multirun, shell, info; cbn in Hnum; try lia; cbn;
        rewrite ?Ec; cbn;
        repeat split; try congruence; try discriminate; try tauto;
        try (intros [H|H]; discriminate);
        try (intros H; injection H as <-; split; [reflexivity|exact Ene]);
        try (intros [H1 H2]; congruence);
        try (intros H; injection H as ->; congruence).
  - destruct run, multirun, shell, info; cbn in Hnum; try lia; cbn;
      repeat split; try congruence; try discriminate; try tauto;
      try (intros [H|H]; discriminate);
      try (intros [H1 H2]; discriminate);
      try (intros [H|H]; [discriminate|lia]).
Qed.

Lemma run_hydra_command_selects_the_one_witness :
  (run_hydra_command (mk_parsed_args false false (Some "job") false false false false)
   = RunJob
   <-> arg_run (mk_parsed_args false false (Some "job") false false false false) = true
       \/ num_commands (mk_parsed_args false false (Some "job") false false false false)
          = 0)
  /\ (run_hydra_command (mk_parsed_args false false (Some "job") false false false false)
      = MultiRun
      <-> arg_multirun (mk_parsed_args false false (Some "job") false false false false)
          = true)
  /\ (forall cfg,
        run_hydra_command (mk_parsed_args false false (Some "job") false false false false)
        = ShowCfg cfg
        <-> arg_cfg (mk_parsed_args false false (Some "job") false false false false)
            = Some cfg /\ cfg <> "")
  /\ (run_hydra_command (mk_parsed_args false false (Some "job") false false false false)
      = ShellCompletion
      <-> arg_shell_completion
            (mk_parsed_args false false (Some "job") false false false false) = true)
  /\ (run_hydra_command (mk_parsed_args false false (Some "job") false false false false)
      = ShowInfo
      <-> arg_info (mk_parsed_args false false (Some "job") false false false false)
          = true)
  /\ (run_hydra_command (mk_parsed_args false false (Some "job") false false false false)
      = NotSpecified
      <-> arg_cfg (mk_parsed_args false false (Some "job") false false false false)
          = Some "").
Proof.
  apply (run_hydra_command_selects_the_one
           (mk_parsed_args false false (Some "job") false false false false)).
  - reflexivity.
  - reflexivity.
  - cbn. lia.
Defined.

Example run_hydra_command_run :
  run_hydra_command (mk_parsed_args true false None true true false false) = AppHelp
  /\ run_hydra_command (mk_parsed_args false false None true true false false)
     = TooManyCommands
  /\ run_hydra_command (mk_parsed_args false false None false false false false)
     = RunJob
  /\ run_hydra_command (mk_parsed_args false false (Some "") false false false false)
     = NotSpecified.
Proof. repeat split. Qed.

